(** * Shopping cart of the Transgourmet MCP server

    A shallow embedding of [CartApi] (transgourmet-cart-api.ts), of
    [fetchTransgourmetArticleDetails] and [searchTransgourmetCatalog]
    (transgourmet-api.ts), of [escapeHtml] (generate-products-html.ts) and
    of the two cart tools that add articles (index.ts).

    - [cartStorage] is the injected [Map<string, Cart>].  A [Cart] is a
      JavaScript object, so the map holds references; the objects live in
      [objects], and a mutation of a cart is a write to that heap.
    - A quantity is a [number] that holds an integer, kept as that integer
      ([Z]); a sum of quantities is rounded as the sum of two doubles is
      ([jsAdd]).  Prices are rationals ([Q]) and are only copied, never
      computed with.
    - The global [fetch] and [randomUUID] are parameters of the development:
      the first threads a network state, the second an entropy state.
    - [console.log] and [console.error] have no effect on any result and are
      left out.  An [await] is modelled as the sequential step it is in a
      run without interleaved calls. *)

From Stdlib Require Import ZArith QArith Ascii Floats Uint63.
From stdpp Require Import gmap strings list fin_maps pretty.

Local Open Scope string_scope.
Local Open Scope list_scope.
Local Open Scope Z_scope.

(** ** Data model *)

Record CartPosition := mkCartPosition {
  articleNumber : string;
  quantity : Z
}.

Record Cart := mkCart {
  positions : list CartPosition
}.

Record CartPositionDisplay := mkCartPositionDisplay {
  d_articleNumber : string;
  d_quantity : Z;
  d_description : string;
  d_price : Q;
  d_imageUrl : string
}.

Record CartDisplay := mkCartDisplay {
  d_positions : list CartPositionDisplay;
  totalPositions : Z
}.

Global Instance CartPosition_eq_dec : EqDecision CartPosition.
Proof. solve_decision. Defined.

Global Instance Cart_eq_dec : EqDecision Cart.
Proof. solve_decision. Defined.

(** ** Numbers *)

(** A quantity is a JavaScript [number] that holds an integer, kept as that
    integer.  A [number] is a double: the integers up to [2 ^ 53] in
    magnitude are all doubles, and a larger one is a double when it fits a
    significand of 53 bits.  [roundToDouble z] is the double nearest to
    the integer [z], the one with the even significand when two are as
    near.  (Beyond the largest double, about [2 ^ 1024], the source has
    [Infinity], which no integer stands for; every property below that
    states the value of a sum bounds it by [2 ^ 53].) *)
Definition roundToDouble (z : Z) : Z :=
  if Z.abs z <=? 2 ^ 53 then z
  else
    let e := Z.log2 (Z.abs z) - 52 in
    let m := Z.abs z / 2 ^ e in
    let r := Z.abs z mod 2 ^ e in
    let half := 2 ^ (e - 1) in
    let m' :=
      if r <? half then m
      else if half <? r then m + 1
      else if Z.even m then m else m + 1 in
    Z.sgn z * (m' * 2 ^ e).

(** [a + b] and [a += b] of the source on two integers: the exact sum,
    rounded to a double. *)
Definition jsAdd (a b : Z) : Z := roundToDouble (a + b).

(** The double that holds an integer below [2 ^ 63] in magnitude, and the
    integer a double holds, for comparing [jsAdd] with the addition of the
    doubles themselves. *)
Definition doubleOfZ (z : Z) : float :=
  let x := PrimFloat.of_uint63 (Uint63.of_Z (Z.abs z)) in
  if z <? 0 then PrimFloat.opp x else x.

Definition doubleToZ (x : float) : option Z :=
  match Prim2SF x with
  | S754_zero _ => Some 0
  | S754_finite s m e =>
      if 0 <=? e then Some ((if s then -1 else 1) * (Z.pos m * 2 ^ e))
      else if Z.pos m mod 2 ^ (- e) =? 0
           then Some ((if s then -1 else 1) * (Z.pos m / 2 ^ (- e)))
           else None
  | _ => None
  end.

(** Pairs of doubles around the points where sums start to round. *)
Definition roundingSamples : list (Z * Z) :=
  [(3, 4); (0, 0); (-5, 5); (2 ^ 53 - 1, 1); (2 ^ 53 - 1, 2); (2 ^ 53, 1);
   (2 ^ 53, 2); (2 ^ 53, 3); (2 ^ 53 + 2, 1); (2 ^ 53 + 2, 3);
   (2 ^ 53 + 4, 1); (2 ^ 54, 1); (2 ^ 54, 2); (2 ^ 54, 3); (2 ^ 54, 6);
   (2 ^ 60, 2 ^ 7); (2 ^ 60, 2 ^ 7 + 1); (2 ^ 60 + 2 ^ 8, 2 ^ 7);
   (2 ^ 62, 2 ^ 62); (2 ^ 62, 2 ^ 62 - 2 ^ 10);
   (- 2 ^ 53, -1); (- 2 ^ 53 - 2, -1); (- 2 ^ 53 - 2, -3); (2 ^ 54, -1);
   (2 ^ 53 + 2, - 2 ^ 53); (2 ^ 53, - 2 ^ 53);
   (roundToDouble 123456789012345678, roundToDouble 98765432109876543);
   (roundToDouble 1234567890123456789, roundToDouble 987654321098765);
   (roundToDouble (2 ^ 62 - 1), roundToDouble (2 ^ 61 + 12345))].

(** ** The store: a map of references into a heap of cart objects *)

Abbreviation ref := positive.

Record CartApi := mkCartApi {
  cartStorage : gmap string ref;
  objects : gmap ref Cart
}.

(** [{ positions: [] }] *)
Definition emptyCart : Cart := {| positions := [] |}.

(** Evaluation of an object literal: a new object at an unused reference. *)
Definition alloc (c : Cart) (σ : CartApi) : ref * CartApi :=
  let r := fresh (dom (objects σ)) in
  (r, {| cartStorage := cartStorage σ; objects := <[r := c]> (objects σ) |}).

(** The object behind a reference.  A JavaScript reference always denotes an
    object ([wellFormed] below); outside the heap [load] is the empty cart. *)
Definition load (r : ref) (σ : CartApi) : Cart :=
  default emptyCart (objects σ !! r).

(** [cart.positions = ps], [cart.positions.push(..)] and
    [cart.positions[i].quantity = ..]: a write to the object [r]. *)
Definition setPositions (r : ref) (ps : list CartPosition) (σ : CartApi) : CartApi :=
  {| cartStorage := cartStorage σ;
     objects := <[r := {| positions := ps |}]> (objects σ) |}.

(** [this.cartStorage.set(username, cart)] *)
Definition storageSet (username : string) (r : ref) (σ : CartApi) : CartApi :=
  {| cartStorage := <[username := r]> (cartStorage σ); objects := objects σ |}.

(** [Array.prototype.findIndex]: the first index whose element satisfies
    the predicate, and [-1] when there is none. *)
Fixpoint findIndexFrom {A : Type} (p : A → bool) (l : list A) (i : Z) : Z :=
  match l with
  | [] => -1
  | x :: l' => if p x then i else findIndexFrom p l' (i + 1)
  end.

Definition findIndex {A : Type} (p : A → bool) (l : list A) : Z :=
  findIndexFrom p l 0.

(** ** CartApi *)

Definition getCartInternal (username : string) (σ : CartApi) : ref * CartApi :=
  match cartStorage σ !! username with
  | Some cart => (cart, σ)
  | None => alloc emptyCart σ
  end.

Definition addToCart (username article : string) (qty : Z) (σ : CartApi)
  : ref * CartApi :=
  let '(cart, σ1) := getCartInternal username σ in
  let ps := positions (load cart σ1) in
  let existingPositionIndex :=
    findIndex (λ pos, String.eqb (articleNumber pos) article) ps in
  let σ2 :=
    if (0 <=? existingPositionIndex)%Z then
      setPositions cart
        (alter (λ pos, {| articleNumber := articleNumber pos;
                          quantity := jsAdd (quantity pos) qty |})
               (Z.to_nat existingPositionIndex) ps) σ1
    else
      setPositions cart
        (ps ++ [{| articleNumber := article; quantity := qty |}]) σ1 in
  (cart, storageSet username cart σ2).

Definition addMultipleToCart (username : string) (lines : list CartPosition)
    (σ : CartApi) : ref * CartApi :=
  let '(cart, σ1) := getCartInternal username σ in
  let σ2 :=
    fold_left
      (λ σ' position,
         let ps := positions (load cart σ') in
         let existingPositionIndex :=
           findIndex (λ pos, String.eqb (articleNumber pos)
                                        (articleNumber position)) ps in
         if (0 <=? existingPositionIndex)%Z then
           setPositions cart
             (alter (λ pos, {| articleNumber := articleNumber pos;
                               quantity :=
                                 jsAdd (quantity pos) (quantity position) |})
                    (Z.to_nat existingPositionIndex) ps) σ'
         else
           setPositions cart
             (ps ++ [{| articleNumber := articleNumber position;
                        quantity := quantity position |}]) σ')
      lines σ1 in
  (cart, storageSet username cart σ2).

Definition removeFromCart (username article : string) (σ : CartApi)
  : ref * CartApi :=
  let '(cart, σ1) := getCartInternal username σ in
  let σ2 :=
    setPositions cart
      (List.filter (λ pos, negb (String.eqb (articleNumber pos) article))
                   (positions (load cart σ1))) σ1 in
  (cart, storageSet username cart σ2).

Definition updateCartPosition (username article : string) (qty : Z)
    (σ : CartApi) : ref * CartApi :=
  let '(cart, σ1) := getCartInternal username σ in
  let ps := positions (load cart σ1) in
  let existingPositionIndex :=
    findIndex (λ pos, String.eqb (articleNumber pos) article) ps in
  let σ2 :=
    if (0 <=? existingPositionIndex)%Z then
      setPositions cart
        (alter (λ pos, {| articleNumber := articleNumber pos; quantity := qty |})
               (Z.to_nat existingPositionIndex) ps) σ1
    else
      setPositions cart
        (ps ++ [{| articleNumber := article; quantity := qty |}]) σ1 in
  (cart, storageSet username cart σ2).

Definition clearCart (username : string) (σ : CartApi) : CartApi :=
  let '(cart, σ1) := alloc emptyCart σ in
  storageSet username cart σ1.

Definition getCartItemCount (username : string) (σ : CartApi) : Z * CartApi :=
  let '(cart, σ1) := getCartInternal username σ in
  (fold_left (λ total pos, jsAdd total (quantity pos))
             (positions (load cart σ1)) 0,
   σ1).

(** ** The catalog: transgourmet-api.ts *)

(** What [await response.json()] gives: a rejection on a body that is not
    JSON, a falsy value ([null]), or the article object, taken at its
    declared type; its [description] may be missing ([None]), which
    [getCart] provides for. *)
Inductive JsonBody :=
  | Unparsable
  | Falsy
  | Article (number : string) (description : option string) (normalPrice : Q).

Record Response := mkResponse {
  ok : bool;
  status : nat;
  statusText : string;
  json : JsonBody
}.

(** The promise returned by the global [fetch]. *)
Inductive FetchResult :=
  | Rejected (reason : string)
  | Fulfilled (response : Response).

Inductive Error :=
  | NetworkError (reason : string)
  | RequestFailed (apiUrl : string) (status : nat) (statusText : string)
  | JsonSyntaxError
  | ArticleDataNotFound.

(** A call either returns or throws. *)
Inductive Completion (A : Type) :=
  | Return (a : A)
  | Throw (e : Error).
Arguments Return {A} a.
Arguments Throw {A} e.

Record ArticleDetails := mkArticleDetails {
  a_articleNumber : string;
  a_description : option string;
  a_normalPrice : Q
}.

Definition imageUrl (article : string) : string :=
  "https://webshop.transgourmet.ch/images/articles/120px/" +:+ article +:+ ".jpg".

Section Environment.

(** The network behind the global [fetch], and the entropy behind
    [randomUUID] of node:crypto. *)
Variable Net : Type.
Variable fetch : string → Net → FetchResult * Net.
Variable Entropy : Type.
Variable randomUUID : Entropy → string * Entropy.

Definition fetchTransgourmetArticleDetails (article : string) (net : Net)
  : Completion ArticleDetails * Net :=
  let apiUrl :=
    "https://webshop.transgourmet.ch/api/webshop/hub/bgh/articledetails/"
      +:+ article in
  match fetch apiUrl net with
  | (Rejected reason, net') => (Throw (NetworkError reason), net')
  | (Fulfilled response, net') =>
      if negb (ok response) then
        (Throw (RequestFailed apiUrl (status response) (statusText response)),
         net')
      else
        match json response with
        | Unparsable => (Throw JsonSyntaxError, net')
        | Falsy => (Throw ArticleDataNotFound, net')
        | Article number description normalPrice =>
            (Return {| a_articleNumber := number;
                       a_description := description;
                       a_normalPrice := normalPrice |}, net')
        end
  end.

(** The body of the loop of [getCart]: the [try] block and its [catch]. *)
Definition resolvePosition (pos : CartPosition) (net : Net)
  : Completion CartPositionDisplay * Net :=
  match fetchTransgourmetArticleDetails (articleNumber pos) net with
  | (Return articleDetails, net') =>
      (Return {| d_articleNumber := articleNumber pos;
                 d_quantity := quantity pos;
                 d_description := default "" (a_description articleDetails);
                 d_price := a_normalPrice articleDetails;
                 d_imageUrl := imageUrl (articleNumber pos) |}, net')
  | (Throw error, net') =>
      (Return {| d_articleNumber := articleNumber pos;
                 d_quantity := quantity pos;
                 d_description := "";
                 d_price := 0%Q;
                 d_imageUrl := imageUrl (articleNumber pos) |}, net')
  end.

(** [for (const pos of cart.positions) { ... positions.push(..) }], with
    [resolved] the array built so far: an exception that leaves the body
    ends the loop and the call. *)
Fixpoint resolvePositions (todo : list CartPosition)
    (resolved : list CartPositionDisplay) (net : Net)
  : Completion (list CartPositionDisplay) * Net :=
  match todo with
  | [] => (Return resolved, net)
  | pos :: todo' =>
      match resolvePosition pos net with
      | (Return d, net') => resolvePositions todo' (resolved ++ [d]) net'
      | (Throw e, net') => (Throw e, net')
      end
  end.

Definition getCart (username : string) (σ : CartApi) (net : Net)
  : Completion CartDisplay * CartApi * Net :=
  let '(cart, σ1) := getCartInternal username σ in
  match resolvePositions (positions (load cart σ1)) [] net with
  | (Return ds, net') =>
      (Return {| d_positions := ds;
                 totalPositions :=
                   fold_left (λ total pos, jsAdd total (d_quantity pos))
                             ds 0 |},
       σ1, net')
  | (Throw e, net') => (Throw e, σ1, net')
  end.

Definition submitCart (username : string) (σ : CartApi) (e : Entropy)
  : string * CartApi * Entropy :=
  let '(orderId, e') := randomUUID e in
  (orderId, clearCart username σ, e').

End Environment.

(** ** Observations and the notions the properties are stated with *)

(** The cart a read of [username] sees: [getCartInternal], dereferenced. *)
Definition cartOf (σ : CartApi) (username : string) : Cart :=
  let '(cart, σ1) := getCartInternal username σ in load cart σ1.

(** The lines the store holds for [username]: none without an entry. *)
Definition storedLines (σ : CartApi) (username : string) : list CartPosition :=
  match cartStorage σ !! username with
  | Some cart => positions (load cart σ)
  | None => []
  end.

Definition isLineOf (article : string) (pos : CartPosition) : bool :=
  String.eqb (articleNumber pos) article.

Definition linesFor (article : string) (c : Cart) : list CartPosition :=
  List.filter (isLineOf article) (positions c).

Definition sumZ (l : list Z) : Z := foldr Z.add 0 l.

(** The quantity a cart holds of an article: [0] without a line. *)
Definition quantityOf (article : string) (c : Cart) : Z :=
  sumZ (quantity <$> linesFor article c).

(** The running totals of adding the numbers of [qs] to [z], one after
    the other. *)
Fixpoint runningTotals (z : Z) (qs : list Z) : list Z :=
  match qs with
  | [] => []
  | q :: qs' => (z + q) :: runningTotals (z + q) qs'
  end.

(** The integers up to [2 ^ 53] in magnitude: a sum of two integers that
    lies there is added exactly by the source. *)
Definition exactRange (z : Z) : Prop := Z.abs z ≤ 2 ^ 53.

Global Instance exactRange_dec z : Decision (exactRange z).
Proof. unfold exactRange. apply _. Defined.

(** Quantities that are not negative and whose sum is at most [2 ^ 53]:
    the source adds them, in any grouping, exactly. *)
Definition withinRange (qs : list Z) : Prop :=
  Forall (λ q, 0 ≤ q) qs ∧ sumZ qs ≤ 2 ^ 53.

Global Instance withinRange_dec qs : Decision (withinRange qs).
Proof. unfold withinRange. apply _. Defined.

(** At most one line per article number. *)
Definition uniqueLines (c : Cart) : Prop :=
  NoDup (articleNumber <$> positions c).

Definition storeInvariant (σ : CartApi) : Prop :=
  map_Forall (λ _ cart, uniqueLines (load cart σ)) (cartStorage σ).

Global Instance uniqueLines_dec c : Decision (uniqueLines c).
Proof. unfold uniqueLines. apply _. Defined.

Global Instance storeInvariant_dec σ : Decision (storeInvariant σ).
Proof. unfold storeInvariant. apply _. Defined.

(** No dangling reference. *)
Definition wellFormed (σ : CartApi) : Prop :=
  map_Forall (λ _ cart, is_Some (objects σ !! cart)) (cartStorage σ).

(** The mutating operations of the store. *)
Inductive Mutation :=
  | AddLine (username article : string) (qty : Z)
  | AddLines (username : string) (lines : list CartPosition)
  | RemoveLine (username article : string)
  | SetLineQuantity (username article : string) (qty : Z)
  | Clear (username : string).

Definition exec (m : Mutation) (σ : CartApi) : CartApi :=
  match m with
  | AddLine u a q => (addToCart u a q σ).2
  | AddLines u ls => (addMultipleToCart u ls σ).2
  | RemoveLine u a => (removeFromCart u a σ).2
  | SetLineQuantity u a q => (updateCartPosition u a q σ).2
  | Clear u => clearCart u σ
  end.

Definition userOf (m : Mutation) : string :=
  match m with
  | AddLine u _ _ | AddLines u _ | RemoveLine u _
  | SetLineQuantity u _ _ | Clear u => u
  end.


(** [addLine] folded over the input lines, in order. *)
Definition foldAddToCart (username : string) (lines : list CartPosition)
    (σ : CartApi) : CartApi :=
  fold_left
    (λ σ' position,
       (addToCart username (articleNumber position) (quantity position) σ').2)
    lines σ.

(** The display line of a stored line, by the outcome of its lookup. *)
Definition displayLine (pos : CartPosition) (o : Completion ArticleDetails)
  : CartPositionDisplay :=
  match o with
  | Return details =>
      {| d_articleNumber := articleNumber pos;
         d_quantity := quantity pos;
         d_description := default "" (a_description details);
         d_price := a_normalPrice details;
         d_imageUrl := imageUrl (articleNumber pos) |}
  | Throw _ =>
      {| d_articleNumber := articleNumber pos;
         d_quantity := quantity pos;
         d_description := "";
         d_price := 0%Q;
         d_imageUrl := imageUrl (articleNumber pos) |}
  end.

Section Lookups.

Context {Net : Type} (fetch : string → Net → FetchResult * Net).

(** The outcomes of the catalog lookups of a run over [ps], one per line,
    each issued on the network state the previous ones left. *)
Fixpoint lookups (ps : list CartPosition) (net : Net)
  : list (Completion ArticleDetails) :=
  match ps with
  | [] => []
  | pos :: ps' =>
      let '(o, net') :=
        fetchTransgourmetArticleDetails Net fetch (articleNumber pos) net in
      o :: lookups ps' net'
  end.

End Lookups.

(** ** Sessions *)

(** The calls a client of [CartApi] makes. *)
Inductive Command :=
  | Mutate (m : Mutation)
  | GetCart (username : string)
  | GetCartItemCount (username : string)
  | SubmitCart (username : string).

Section Sessions.

Context {Net Entropy : Type}.
Variable fetch : string → Net → FetchResult * Net.
Variable randomUUID : Entropy → string * Entropy.

Record World := mkWorld {
  store : CartApi;
  network : Net;
  entropy : Entropy
}.

(** One call: the order identifier it issued, if any, and the world it
    leaves. *)
Definition step (c : Command) (w : World) : option string * World :=
  match c with
  | Mutate m =>
      (None, {| store := exec m (store w); network := network w;
                entropy := entropy w |})
  | GetCart u =>
      let '(_, σ', net') := getCart Net fetch u (store w) (network w) in
      (None, {| store := σ'; network := net'; entropy := entropy w |})
  | GetCartItemCount u =>
      (None, {| store := (getCartItemCount u (store w)).2;
                network := network w; entropy := entropy w |})
  | SubmitCart u =>
      let '(orderId, σ', e') :=
        submitCart Entropy randomUUID u (store w) (entropy w) in
      (Some orderId, {| store := σ'; network := network w; entropy := e' |})
  end.

(** A history of calls: the identifiers issued, oldest first, and the
    world at its end. *)
Fixpoint run (history : list Command) (w : World) : list string * World :=
  match history with
  | [] => ([], w)
  | c :: history' =>
      let '(o, w') := step c w in
      let '(issued, w'') := run history' w' in
      (option_list o ++ issued, w'')
  end.

(** The [n]-th identifier the generator yields from [e] on. *)
Definition nthUUID (e : Entropy) (n : nat) : string :=
  (randomUUID (Nat.iter n (λ e', (randomUUID e').2) e)).1.

End Sessions.

Arguments World : clear implicits.

(** ** A catalog and a generator to run the model on *)

(** Article "X" is unreachable; any other article is served. *)
Definition demoFetch (url : string) (net : unit) : FetchResult * unit :=
  if String.eqb url
       "https://webshop.transgourmet.ch/api/webshop/hub/bgh/articledetails/X"
  then (Rejected "ECONNREFUSED", net)
  else (Fulfilled {| ok := true; status := 200; statusText := "OK";
                     json := Article "Y" (Some "Joghurt nature") (5 # 2) |},
        net).

(** A counter, printed in decimal. *)
Definition demoUUID (n : nat) : string * nat := (pretty n, S n).

(** A generator that yields one value over and over. *)
Definition stuckUUID (e : unit) : string * unit :=
  ("00000000-0000-4000-8000-000000000000", e).

(** ** List-level view of the updates *)

(** The two branches on [findIndex] that [addToCart], [addMultipleToCart]
    and [updateCartPosition] share: [f] rewrites the line found, [new] is
    pushed when there is none. *)
Definition upsert (f : CartPosition → CartPosition) (new : CartPosition)
    (article : string) (ps : list CartPosition) : list CartPosition :=
  let existingPositionIndex := findIndex (isLineOf article) ps in
  if (0 <=? existingPositionIndex)%Z then
    alter f (Z.to_nat existingPositionIndex) ps
  else ps ++ [new].

Definition addQty (qty : Z) (pos : CartPosition) : CartPosition :=
  {| articleNumber := articleNumber pos;
     quantity := jsAdd (quantity pos) qty |}.

Definition setQty (qty : Z) (pos : CartPosition) : CartPosition :=
  {| articleNumber := articleNumber pos; quantity := qty |}.

Definition addLine (article : string) (qty : Z) (ps : list CartPosition) :=
  upsert (addQty qty) {| articleNumber := article; quantity := qty |} article ps.

Definition setLine (article : string) (qty : Z) (ps : list CartPosition) :=
  upsert (setQty qty) {| articleNumber := article; quantity := qty |} article ps.

Definition dropLine (article : string) (ps : list CartPosition) :=
  List.filter (λ pos, negb (String.eqb (articleNumber pos) article)) ps.

(** Every update of a cart has one shape: read the cart of [username],
    rewrite its lines with [g], write the reference back. *)
Definition modify (username : string)
    (g : list CartPosition → list CartPosition) (σ : CartApi) : ref * CartApi :=
  let '(cart, σ1) := getCartInternal username σ in
  (cart,
   storageSet username cart
     (setPositions cart (g (positions (load cart σ1))) σ1)).

(** The lines of a cart after [addLine] for each input line, in order. *)
Definition addLines (lines : list CartPosition) (ps : list CartPosition)
  : list CartPosition :=
  fold_left (λ ps' position,
               addLine (articleNumber position) (quantity position) ps')
            lines ps.

(** No cart object is stored under two usernames. *)
Definition noSharing (σ : CartApi) : Prop :=
  ∀ u v r, cartStorage σ !! u = Some r → cartStorage σ !! v = Some r → u = v.

(** What a session keeps true of the store. *)
Definition consistent (σ : CartApi) : Prop :=
  storeInvariant σ ∧ wellFormed σ ∧ noSharing σ.

(** ** generate-products-html.ts: [escapeHtml] *)

(** The replacement of one character: the [map] of [escapeHtml] on the
    five characters the regular expression matches (ampersand, less-than,
    greater-than, double quote, apostrophe), the character itself
    otherwise. *)
Definition escapeChar (c : ascii) : string :=
  if Ascii.eqb c "&"%char then "&amp;"
  else if Ascii.eqb c "<"%char then "&lt;"
  else if Ascii.eqb c ">"%char then "&gt;"
  else if Ascii.eqb c "034"%char then "&quot;"
  else if Ascii.eqb c "'"%char then "&#039;"
  else String c "".

(** [text.replace(.., (m) => map[m])] with the global flag: every match
    is replaced.  A string is its UTF-8 bytes: the five characters are
    ASCII, and no byte of a longer UTF-8 sequence is, so the replacement
    per byte is the replacement per character. *)
Fixpoint escapeHtml (text : string) : string :=
  match text with
  | "" => ""
  | String c rest => escapeChar c +:+ escapeHtml rest
  end.

(** The characters [escapeHtml] replaces. *)
Definition isMarkup (c : ascii) : bool :=
  Ascii.eqb c "&"%char || Ascii.eqb c "<"%char || Ascii.eqb c ">"%char
  || Ascii.eqb c "034"%char || Ascii.eqb c "'"%char.

(** ** transgourmet-api.ts: [searchTransgourmetCatalog] *)

(** A value as [JSON.parse] gives it.  A number is a double.  An object
    holds its members as the text lists them; of two members with one name
    the later one is the property. *)
#[warnings="-register-all"]
Inductive Json :=
  | JNull
  | JBool (b : bool)
  | JNumber (x : float)
  | JString (s : string)
  | JArray (elements : list Json)
  | JObject (members : list (string * Json)).

(** The truthiness of a value: [null], [false], [0], [-0], [NaN] and the
    empty string are falsy. *)
Definition truthy (v : Json) : bool :=
  match v with
  | JNull => false
  | JBool b => b
  | JNumber x => negb (PrimFloat.eqb x 0 || PrimFloat.is_nan x)
  | JString s => negb (String.eqb s "")
  | JArray _ => true
  | JObject _ => true
  end.

(** [v.key] and [v?.key] for a [key] that no prototype defines, as the four
    names read here: the property of an object, [undefined] ([None]) on
    every other value.  ([null.key] throws; the source reads a property of
    [null] only through [?.], which gives [undefined].) *)
Definition getProperty (key : string) (v : Json) : option Json :=
  match v with
  | JObject members =>
      snd <$> List.find (λ member, String.eqb (fst member) key) (rev members)
  | _ => None
  end.

(** [Object.keys(v).length > 0] on a value that is not [null]: the names of
    an object, the indices of an array and of a string; a number or a
    boolean has no keys. *)
Definition hasKeys (v : Json) : bool :=
  match v with
  | JObject (_ :: _) => true
  | JArray (_ :: _) => true
  | JString (String _ _) => true
  | _ => false
  end.

(** [article && Object.keys(article).length > 0], as [filter] reads it. *)
Definition isArticleEntry (article : Json) : bool :=
  truthy article && hasKeys article.

Inductive SearchBody :=
  | BodyRejected (reason : string)
  | BodyParsed (data : Json).

(** The response of the search request; [s_json] is what
    [await response.json()] gives: a rejection or the parsed value. *)
Record SearchResponse := mkSearchResponse {
  s_ok : bool;
  s_status : nat;
  s_statusText : string;
  s_json : SearchBody
}.

Inductive SearchFetchResult :=
  | SearchRejected (reason : string)
  | SearchFulfilled (response : SearchResponse).

(** The body of the POST request, before [JSON.stringify]. *)
Record SearchRequest := mkSearchRequest {
  r_searchTerm : string;
  r_page : nat;
  r_pageSize : nat
}.

(** An element of the array returned.  The three fields are copied from
    the entry as they are: a value of any type, or [undefined] ([None]). *)
Record Product := mkProduct {
  p_articleNumber : option Json;
  p_description : option Json;
  p_normalPrice : option Json;
  p_articleImageUrl : string
}.

(** What the search throws: the rejection of [fetch] or of
    [response.json()], the [Error] of a status that is not a success, with
    its message, and the two [TypeError]s of the extraction: [filter]
    called on a value without that method, and an object without a
    primitive value inside a template literal. *)
Inductive SearchError :=
  | SearchNetworkError (reason : string)
  | SearchRequestFailed (message : string)
  | SearchBodyError (reason : string)
  | FilterIsNotAFunction
  | CannotConvertToPrimitive.

Inductive SearchCompletion :=
  | SearchReturn (products : list Product)
  | SearchThrow (e : SearchError).

Section Search.

Context {Net : Type}.

(** The global [fetch] at the POST request of the search. *)
Variable fetchSearch : string → SearchRequest → Net → SearchFetchResult * Net.

(** [Number.prototype.toString] on a double. *)
Variable floatToString : float → string.

(** The string a template literal makes of a parsed value; [None] when the
    conversion throws.  An array prints its elements joined by commas,
    [null] elements as the empty string.  An object prints through
    [Object.prototype.toString], unless a member named [toString] hides
    that method: the member is not callable, [valueOf] gives no primitive,
    and the conversion throws a [TypeError]. *)
Fixpoint toString (v : Json) : option string :=
  match v with
  | JNull => Some "null"
  | JBool b => Some (if b then "true" else "false")
  | JNumber x => Some (floatToString x)
  | JString s => Some s
  | JArray elements =>
      String.concat "," <$>
        (fix each (l : list Json) : option (list string) :=
           match l with
           | [] => Some []
           | element :: l' =>
               match match element with
                     | JNull => Some ""
                     | _ => toString element
                     end, each l' with
               | Some s, Some rest => Some (s :: rest)
               | _, _ => None
               end
           end) elements
  | JObject members =>
      if existsb (λ member, String.eqb (fst member) "toString") members
      then None
      else Some "[object Object]"
  end.

(** The same of a value read from a property. *)
Definition templateString (v : option Json) : option string :=
  match v with
  | None => Some "undefined"
  | Some v => toString v
  end.

(** The callback of [map]; [None] when the template literal throws. *)
Definition extractItem (article : Json) : option Product :=
  number ← templateString (getProperty "articleNumber" article);
  Some {| p_articleNumber := getProperty "articleNumber" article;
          p_description := getProperty "description" article;
          p_normalPrice := getProperty "normalPrice" article;
          p_articleImageUrl := imageUrl number |}.

Definition searchTransgourmetCatalog (searchTerm : string) (net : Net)
  : SearchCompletion * Net :=
  let apiUrl :=
    "https://webshop.transgourmet.ch/api/webshop/hub/search-articles/search" in
  match fetchSearch apiUrl
          {| r_searchTerm := searchTerm; r_page := 0; r_pageSize := 3 |} net with
  | (SearchRejected reason, net') => (SearchThrow (SearchNetworkError reason), net')
  | (SearchFulfilled response, net') =>
      if negb (s_ok response) then
        (SearchThrow
           (SearchRequestFailed
              ("API request failed: " +:+ pretty (s_status response) +:+ " "
               +:+ s_statusText response)),
         net')
      else
        match s_json response with
        | BodyRejected reason => (SearchThrow (SearchBodyError reason), net')
        | BodyParsed data =>
            (* data?.articles || [] *)
            let articles :=
              match getProperty "articles" data with
              | Some v => if truthy v then v else JArray []
              | None => JArray []
              end in
            match articles with
            | JArray entries =>
                match mapM extractItem (List.filter isArticleEntry entries) with
                | Some extractedItems => (SearchReturn extractedItems, net')
                | None => (SearchThrow CannotConvertToPrimitive, net')
                end
            | _ => (SearchThrow FilterIsNotAFunction, net')
            end
        end
  end.

End Search.

(** ** The cart tools of the remote server (index.ts) *)

(** The result of a tool: the texts of its [content] items. *)
Record ToolReply := mkToolReply {
  content : list string
}.

(** The arguments of a call, as the handlers read them: a field that is
    missing, [null], or of another type than the one read is [None]. *)
Record AddArticleArgs := mkAddArticleArgs {
  args_articleNumber : option string;
  args_username : option string;
  args_quantity : option Z
}.

Record PositionArg := mkPositionArg {
  arg_articleNumber : option string;
  arg_quantity : option Z
}.

Record AddMultipleArgs := mkAddMultipleArgs {
  margs_username : option string;
  margs_positions : option (list PositionArg)
}.

(** A double quote. *)
Definition dquote : string := String "034"%char "".

Section Tools.

(** [String.prototype.trim] *)
Variable trim : string → string.

(** The text a template literal prints for a [number] that holds the
    integer [z]: [Number.prototype.toString], which writes the decimal
    digits of a small integer and switches to exponent notation from
    [10 ^ 21] on. *)
Variable numberToString : Z → string.

(** The handler of add_article_to_transgourmet_cart.  The [catch] of the
    handler is left out: [addToCart] does not throw. *)
Definition addArticleTool (args : AddArticleArgs) (σ : CartApi)
  : ToolReply * CartApi :=
  let article := default "" (trim <$> args_articleNumber args) in
  let username := default "" (trim <$> args_username args) in
  let qty := default 1 (args_quantity args) in
  if String.eqb article "" then
    ({| content := ["Missing article number."] |}, σ)
  else if String.eqb username "" then
    ({| content := ["Missing username."] |}, σ)
  else
    let '(cart, σ') := addToCart username article qty σ in
    let position :=
      List.find (λ pos, String.eqb (articleNumber pos) article)
                (positions (load cart σ')) in
    let message :=
      match position with
      | Some position =>
          "Added " +:+ numberToString qty +:+ " of article " +:+ article
          +:+ " to cart for user " +:+ dquote +:+ username +:+ dquote
          +:+ ". Current quantity: " +:+ numberToString (quantity position) +:+ "."
      | None =>
          "Added " +:+ numberToString qty +:+ " of article " +:+ article
          +:+ " to cart for user " +:+ dquote +:+ username +:+ dquote +:+ "."
      end in
    ({| content := [message] |}, σ').

(** [positions.map(..).filter((pos) => pos.articleNumber.length > 0)] *)
Definition normalizedPositions (positions : list PositionArg)
  : list CartPosition :=
  List.filter (λ pos, (0 <? String.length (articleNumber pos))%nat)
    (List.map (λ pos, {| articleNumber :=
                           default "" (trim <$> arg_articleNumber pos);
                         quantity := default 1 (arg_quantity pos) |})
              positions).

(** The handler of add_multiple_articles_to_transgourmet_cart; its [catch]
    is left out as well. *)
Definition addMultipleTool (args : AddMultipleArgs) (σ : CartApi)
  : ToolReply * CartApi :=
  let username := default "" (trim <$> margs_username args) in
  let positions' := default [] (margs_positions args) in
  if String.eqb username "" then
    ({| content := ["Missing username."] |}, σ)
  else if (length positions' =? 0)%nat then
    ({| content := ["Missing or empty positions array."] |}, σ)
  else
    let normalized := normalizedPositions positions' in
    if (length normalized =? 0)%nat then
      ({| content :=
            ["No valid positions provided. Each position must have an articleNumber."] |},
       σ)
    else
      let '(cart, σ') := addMultipleToCart username normalized σ in
      let addedItems :=
        String.concat ", "
          (List.map (λ pos, numberToString (quantity pos) +:+ "x "
                             +:+ articleNumber pos)
                    normalized) in
      let message :=
        "Added " +:+ numberToString (Z.of_nat (length normalized))
        +:+ " position(s) to cart for user " +:+ dquote +:+ username +:+ dquote
        +:+ ": " +:+ addedItems +:+ ". Cart now contains "
        +:+ numberToString (Z.of_nat (length (positions (load cart σ'))))
        +:+ " position(s)." in
      ({| content := [message] |}, σ').

End Tools.

(** Every line of every cart of the store names an article. *)
Definition namedLines (σ : CartApi) : Prop :=
  map_Forall (λ _ cart, Forall (λ pos, articleNumber pos ≠ "")
                               (positions (load cart σ)))
             (cartStorage σ).

(** Every line of every cart of the store has a positive quantity. *)
Definition positiveQuantities (σ : CartApi) : Prop :=
  map_Forall (λ _ cart, Forall (λ pos, 0 < quantity pos)
                               (positions (load cart σ)))
             (cartStorage σ).

(** The bound of the input schemas on a quantity, where one is given:
    [z.number().int().positive()]. *)
Definition quantityInSchema (quantity : option Z) : Prop :=
  match quantity with
  | Some q => 0 < q
  | None => True
  end.

(** Leading and trailing spaces removed. *)
Definition demoTrim (s : string) : string :=
  let strip :=
    fix strip (s : string) : string :=
      match s with
      | String " " s' => strip s'
      | _ => s
      end in
  String.rev (strip (String.rev (strip s))).

(** Decimal digits, with a minus sign before a negative number: what the
    source prints for an integer of magnitude below [10 ^ 21]. *)
Definition demoNumberToString (z : Z) : string := pretty z.

(** ** Lemmas on [findIndex] and [upsert] *)

Lemma findIndexFrom_shift {A} (p : A → bool) (l : list A) (i : Z) :
  0 ≤ i →
  (findIndexFrom p l 0 = -1 ∧ findIndexFrom p l i = -1) ∨
  (0 ≤ findIndexFrom p l 0 ∧ findIndexFrom p l i = i + findIndexFrom p l 0).
Proof.
  revert i. induction l as [|x l IH]; intros i Hi; simpl.
  - left. done.
  - change (0 + 1) with 1. destruct (p x).
    + right. lia.
    + destruct (IH (i + 1) ltac:(lia)) as [[H0 Hi1]|[H0 Hi1]];
        destruct (IH 1 ltac:(lia)) as [[H0' H1]|[H0' H1]]; lia.
Qed.

Lemma upsert_nil f new a : upsert f new a [] = [new].
Proof. reflexivity. Qed.

Lemma upsert_cons f new a pos ps :
  upsert f new a (pos :: ps) =
  if isLineOf a pos then f pos :: ps else pos :: upsert f new a ps.
Proof.
  unfold upsert, findIndex. simpl. change (0 + 1) with 1.
  destruct (isLineOf a pos); [done|].
  destruct (findIndexFrom_shift (isLineOf a) ps 1 ltac:(lia)) as [[H0 H1]|[H0 H1]];
    rewrite H1.
  - rewrite H0. done.
  - destruct (Z.leb_spec 0 (1 + findIndexFrom (isLineOf a) ps 0)); [|lia].
    destruct (Z.leb_spec 0 (findIndexFrom (isLineOf a) ps 0)); [|lia].
    replace (Z.to_nat (1 + findIndexFrom (isLineOf a) ps 0))
      with (S (Z.to_nat (findIndexFrom (isLineOf a) ps 0))) by lia.
    done.
Qed.

Lemma isLineOf_true a pos : isLineOf a pos = true ↔ articleNumber pos = a.
Proof. unfold isLineOf. apply String.eqb_eq. Qed.

Lemma isLineOf_false a pos : isLineOf a pos = false ↔ articleNumber pos ≠ a.
Proof. unfold isLineOf. apply String.eqb_neq. Qed.

Lemma filter_isLineOf_absent a ps :
  a ∉ articleNumber <$> ps → List.filter (isLineOf a) ps = [].
Proof.
  induction ps as [|pos ps IH]; simpl; [done|].
  intros Hnot. apply not_elem_of_cons in Hnot as [Hne Hnot].
  destruct (isLineOf a pos) eqn:E.
  - apply isLineOf_true in E. congruence.
  - auto.
Qed.

Section Upsert.

Variable f : CartPosition → CartPosition.
Variable new : CartPosition.
Variable a : string.
Hypothesis f_article : ∀ pos, articleNumber (f pos) = articleNumber pos.
Hypothesis new_article : articleNumber new = a.

Lemma upsert_articles ps :
  articleNumber <$> upsert f new a ps =
  if decide (a ∈ articleNumber <$> ps) then articleNumber <$> ps
  else ((articleNumber <$> ps) ++ [a])%list.
Proof.
  induction ps as [|pos ps IH].
  - rewrite upsert_nil. simpl. by rewrite new_article.
  - rewrite upsert_cons. destruct (isLineOf a pos) eqn:E.
    + apply isLineOf_true in E. rewrite !fmap_cons, f_article.
      rewrite decide_True; [done|]. rewrite E. apply list_elem_of_here.
    + apply isLineOf_false in E. rewrite !fmap_cons, IH.
      destruct (decide (a ∈ articleNumber <$> ps)) as [Hin|Hin].
      * rewrite decide_True; [done|]. by apply list_elem_of_further.
      * rewrite decide_False; [done|].
        intros [?|?]%elem_of_cons; congruence.
Qed.

Lemma upsert_NoDup ps :
  NoDup (articleNumber <$> ps) → NoDup (articleNumber <$> upsert f new a ps).
Proof.
  intros Hnd. rewrite upsert_articles. case_decide; [done|].
  apply NoDup_app. split_and!; [done| |apply NoDup_singleton].
  intros x Hx Hxa%list_elem_of_singleton. congruence.
Qed.

Lemma filter_upsert_same ps :
  NoDup (articleNumber <$> ps) →
  List.filter (isLineOf a) (upsert f new a ps) =
  match List.filter (isLineOf a) ps with
  | [] => [new]
  | pos :: _ => [f pos]
  end.
Proof.
  induction ps as [|pos ps IH]; intros Hnd.
  - rewrite upsert_nil. simpl.
    by rewrite (proj2 (isLineOf_true a new) new_article).
  - rewrite fmap_cons in Hnd. apply NoDup_cons in Hnd as [Hnot Hnd].
    rewrite upsert_cons. simpl. destruct (isLineOf a pos) eqn:E.
    + simpl. assert (isLineOf a (f pos) = true) as ->.
      { apply isLineOf_true. rewrite f_article. by apply isLineOf_true. }
      apply isLineOf_true in E. rewrite E in Hnot.
      by rewrite (filter_isLineOf_absent _ _ Hnot).
    + simpl. rewrite E. auto.
Qed.

Lemma filter_upsert_other b ps :
  b ≠ a →
  List.filter (isLineOf b) (upsert f new a ps) = List.filter (isLineOf b) ps.
Proof.
  intros Hne. induction ps as [|pos ps IH].
  - rewrite upsert_nil. simpl.
    assert (isLineOf b new = false) as ->; [|done].
    apply isLineOf_false. congruence.
  - rewrite upsert_cons. destruct (isLineOf a pos) eqn:E; simpl.
    + apply isLineOf_true in E.
      assert (isLineOf b (f pos) = false) as ->.
      { apply isLineOf_false. rewrite f_article. congruence. }
      assert (isLineOf b pos = false) as ->; [|done].
      apply isLineOf_false. congruence.
    + by rewrite IH.
Qed.

End Upsert.

Lemma dropLine_articles a ps :
  articleNumber <$> dropLine a ps =
  List.filter (λ b, negb (String.eqb b a)) (articleNumber <$> ps).
Proof.
  unfold dropLine. induction ps as [|pos ps IH]; [done|].
  rewrite fmap_cons. simpl.
  destruct (String.eqb (articleNumber pos) a); simpl; [exact IH|].
  f_equal. exact IH.
Qed.

Lemma NoDup_List_filter {A} (p : A → bool) (l : list A) :
  NoDup l → NoDup (List.filter p l).
Proof.
  induction 1 as [|x l Hx Hnd IH]; simpl; [constructor|].
  destruct (p x); [|done]. constructor; [|done].
  rewrite list_elem_of_In, filter_In, <- list_elem_of_In. tauto.
Qed.

Lemma dropLine_NoDup a ps :
  NoDup (articleNumber <$> ps) → NoDup (articleNumber <$> dropLine a ps).
Proof. intros. rewrite dropLine_articles. by apply NoDup_List_filter. Qed.

Lemma dropLine_absent a ps : List.filter (isLineOf a) (dropLine a ps) = [].
Proof.
  induction ps as [|pos ps IH]; simpl; [done|].
  destruct (String.eqb (articleNumber pos) a) eqn:E; simpl; [done|].
  unfold isLineOf at 1. by rewrite E.
Qed.

(** ** The heap and the store *)

Lemma CartApi_eq (σ1 σ2 : CartApi) :
  cartStorage σ1 = cartStorage σ2 → objects σ1 = objects σ2 → σ1 = σ2.
Proof. destruct σ1, σ2; simpl; intros; by subst. Qed.

Lemma alloc_fresh c σ : (alloc c σ).1 ∉ dom (objects σ).
Proof. apply is_fresh. Qed.

Lemma load_alloc c σ : load (alloc c σ).1 (alloc c σ).2 = c.
Proof. unfold load, alloc. simpl. by rewrite lookup_insert_eq. Qed.

Lemma load_setPositions_eq r ps σ :
  load r (setPositions r ps σ) = {| positions := ps |}.
Proof. unfold load, setPositions. simpl. by rewrite lookup_insert_eq. Qed.

Lemma load_setPositions_ne r r' ps σ :
  r ≠ r' → load r' (setPositions r ps σ) = load r' σ.
Proof.
  intros Hne. unfold load, setPositions. simpl. by rewrite lookup_insert_ne.
Qed.

Lemma load_storageSet u r r' σ : load r' (storageSet u r σ) = load r' σ.
Proof. reflexivity. Qed.

Lemma getCartInternal_known σ u r :
  cartStorage σ !! u = Some r → getCartInternal u σ = (r, σ).
Proof. intros H. unfold getCartInternal. by rewrite H. Qed.

Lemma getCartInternal_unknown σ u :
  cartStorage σ !! u = None → getCartInternal u σ = alloc emptyCart σ.
Proof. intros H. unfold getCartInternal. by rewrite H. Qed.

Lemma getCartInternal_storage σ u :
  cartStorage (getCartInternal u σ).2 = cartStorage σ.
Proof. unfold getCartInternal. by destruct (cartStorage σ !! u). Qed.

Lemma cartOf_spec σ u :
  cartOf σ u = load (getCartInternal u σ).1 (getCartInternal u σ).2.
Proof. unfold cartOf. by destruct (getCartInternal u σ). Qed.

Lemma cartOf_known σ u r :
  cartStorage σ !! u = Some r → cartOf σ u = load r σ.
Proof. intros H. by rewrite cartOf_spec, (getCartInternal_known _ _ _ H). Qed.

Lemma cartOf_unknown σ u :
  cartStorage σ !! u = None → cartOf σ u = emptyCart.
Proof.
  intros H. rewrite cartOf_spec, (getCartInternal_unknown _ _ H).
  apply load_alloc.
Qed.

Lemma cartOf_storedLines σ u : positions (cartOf σ u) = storedLines σ u.
Proof.
  unfold storedLines. destruct (cartStorage σ !! u) as [r|] eqn:E.
  - by rewrite (cartOf_known _ _ _ E).
  - by rewrite (cartOf_unknown _ _ E).
Qed.

Lemma addToCart_modify u a q σ : addToCart u a q σ = modify u (addLine a q) σ.
Proof.
  unfold addToCart, modify. destruct (getCartInternal u σ) as [r σ1].
  unfold addLine, upsert, isLineOf, addQty.
  by destruct (0 <=? findIndex _ _)%Z.
Qed.

Lemma updateCartPosition_modify u a q σ :
  updateCartPosition u a q σ = modify u (setLine a q) σ.
Proof.
  unfold updateCartPosition, modify. destruct (getCartInternal u σ) as [r σ1].
  unfold setLine, upsert, isLineOf, setQty.
  by destruct (0 <=? findIndex _ _)%Z.
Qed.

Lemma removeFromCart_modify u a σ :
  removeFromCart u a σ = modify u (dropLine a) σ.
Proof. reflexivity. Qed.

Lemma modify_ref u g σ : (modify u g σ).1 = (getCartInternal u σ).1.
Proof. unfold modify. by destruct (getCartInternal u σ). Qed.

Lemma modify_storage u g σ :
  cartStorage (modify u g σ).2 = <[u := (modify u g σ).1]> (cartStorage σ).
Proof.
  unfold modify. pose proof (getCartInternal_storage σ u) as H.
  destruct (getCartInternal u σ) as [r σ1]. simpl in *. by rewrite H.
Qed.

Lemma modify_lookup u g σ :
  cartStorage (modify u g σ).2 !! u = Some (modify u g σ).1.
Proof. rewrite modify_storage. apply lookup_insert_eq. Qed.

Lemma modify_load u g σ :
  load (modify u g σ).1 (modify u g σ).2 =
  {| positions := g (positions (cartOf σ u)) |}.
Proof.
  rewrite cartOf_spec. unfold modify.
  destruct (getCartInternal u σ) as [r σ1]. simpl.
  by rewrite load_storageSet, load_setPositions_eq.
Qed.

Lemma modify_cartOf u g σ :
  cartOf (modify u g σ).2 u = {| positions := g (positions (cartOf σ u)) |}.
Proof. by rewrite (cartOf_known _ _ _ (modify_lookup u g σ)), modify_load. Qed.

Lemma modify_load_other u g σ r' :
  r' ≠ (modify u g σ).1 → load r' (modify u g σ).2 = load r' σ.
Proof.
  unfold modify, getCartInternal.
  destruct (cartStorage σ !! u) as [r|] eqn:E; simpl; intros Hne.
  - by rewrite load_storageSet, load_setPositions_ne.
  - rewrite load_storageSet, load_setPositions_ne by done.
    unfold load. simpl. by rewrite lookup_insert_ne.
Qed.

Lemma modify_modify u g1 g2 σ :
  modify u g2 (modify u g1 σ).2 = modify u (g2 ∘ g1) σ.
Proof.
  unfold modify. destruct (getCartInternal u σ) as [r σ1]. simpl.
  rewrite (getCartInternal_known _ u r) by (simpl; apply lookup_insert_eq).
  rewrite load_storageSet, load_setPositions_eq. simpl.
  f_equal. apply CartApi_eq; simpl; apply insert_insert_eq.
Qed.

(** The loop of [addMultipleToCart] rewrites the object [r] once per line. *)
Lemma addMultiple_loop r lines σ :
  lines ≠ [] →
  fold_left
    (λ σ' position,
       let ps := positions (load r σ') in
       let existingPositionIndex :=
         findIndex (λ pos, String.eqb (articleNumber pos)
                                      (articleNumber position)) ps in
       if (0 <=? existingPositionIndex)%Z then
         setPositions r
           (alter (λ pos, {| articleNumber := articleNumber pos;
                             quantity :=
                               jsAdd (quantity pos) (quantity position) |})
                  (Z.to_nat existingPositionIndex) ps) σ'
       else
         setPositions r
           (ps ++ [{| articleNumber := articleNumber position;
                      quantity := quantity position |}]) σ')
    lines σ =
  setPositions r (addLines lines (positions (load r σ))) σ.
Proof.
  set (body := λ (σ' : CartApi) (position : CartPosition), _).
  assert (Hbody : ∀ σ' p,
    body σ' p =
    setPositions r (addLine (articleNumber p) (quantity p)
                            (positions (load r σ'))) σ').
  { intros σ' p. unfold body, addLine, upsert, isLineOf, addQty.
    by destruct (0 <=? findIndex _ _)%Z. }
  clearbody body. revert σ.
  induction lines as [|p lines IH]; intros σ Hne; [done|].
  simpl. rewrite Hbody. destruct lines as [|p' lines].
  - done.
  - rewrite IH by done. rewrite load_setPositions_eq. simpl.
    apply CartApi_eq; simpl; [done|]. apply insert_insert_eq.
Qed.

Lemma addMultipleToCart_modify u lines σ :
  lines ≠ [] → addMultipleToCart u lines σ = modify u (addLines lines) σ.
Proof.
  intros Hne. unfold addMultipleToCart, modify.
  destruct (getCartInternal u σ) as [r σ1]. by rewrite addMultiple_loop.
Qed.

Lemma addMultipleToCart_nil u σ :
  addMultipleToCart u [] σ =
  ((getCartInternal u σ).1,
   storageSet u (getCartInternal u σ).1 (getCartInternal u σ).2).
Proof.
  unfold addMultipleToCart. by destruct (getCartInternal u σ).
Qed.

Lemma foldAddToCart_cons u p lines σ :
  foldAddToCart u (p :: lines) σ = (modify u (addLines (p :: lines)) σ).2.
Proof.
  unfold foldAddToCart. simpl. rewrite addToCart_modify.
  change (modify u (addLines (p :: lines)) σ)
    with (modify u (addLines lines ∘ addLine (articleNumber p) (quantity p)) σ).
  generalize (addLine (articleNumber p) (quantity p)) as g.
  induction lines as [|p' lines IH]; intros g; [done|].
  simpl. rewrite addToCart_modify, modify_modify. apply IH.
Qed.

(** ** Well-formed stores *)

(** Objects are never freed: a step that redirects [u] to an object of the
    new heap keeps every reference of the store valid. *)
Lemma wellFormed_step σ σ' u r :
  wellFormed σ →
  cartStorage σ' = <[u := r]> (cartStorage σ) →
  is_Some (objects σ' !! r) →
  (∀ r', is_Some (objects σ !! r') → is_Some (objects σ' !! r')) →
  wellFormed σ'.
Proof.
  intros Hwf Hst Hr Hgrow v r' Hv. simpl. rewrite Hst in Hv.
  apply lookup_insert_Some in Hv as [[_ <-]|[_ Hv]]; [done|].
  apply Hgrow. by apply (Hwf v r').
Qed.

Lemma getCartInternal_grows u σ r' :
  is_Some (objects σ !! r') →
  is_Some (objects (getCartInternal u σ).2 !! r').
Proof.
  unfold getCartInternal. destruct (cartStorage σ !! u); [done|]. simpl.
  intros H. rewrite lookup_insert_ne; [done|].
  intros <-. by apply (alloc_fresh emptyCart σ), elem_of_dom.
Qed.

Lemma getCartInternal_valid u σ :
  wellFormed σ →
  is_Some (objects (getCartInternal u σ).2 !! (getCartInternal u σ).1).
Proof.
  intros Hwf. unfold getCartInternal.
  destruct (cartStorage σ !! u) as [r|] eqn:E; simpl.
  - by apply (Hwf u r).
  - rewrite lookup_insert_eq. eauto.
Qed.

Lemma modify_wellFormed u g σ : wellFormed σ → wellFormed (modify u g σ).2.
Proof.
  intros Hwf.
  apply (wellFormed_step σ _ u (modify u g σ).1); [done|..].
  - apply modify_storage.
  - unfold modify. destruct (getCartInternal u σ) as [r σ1]. simpl.
    rewrite lookup_insert_eq. eauto.
  - intros r' Hr'. pose proof (getCartInternal_grows u σ r' Hr') as H.
    unfold modify. destruct (getCartInternal u σ) as [r σ1]. simpl in *.
    destruct (decide (r = r')) as [->|Hne].
    + rewrite lookup_insert_eq. eauto.
    + by rewrite lookup_insert_ne.
Qed.

Lemma exec_wellFormed (m : Mutation) (σ : CartApi) :
  wellFormed σ → wellFormed (exec m σ).
Proof.
  intros Hwf. destruct m as [u a q|u lines|u a|u a q|u]; cbn [exec].
  - rewrite addToCart_modify. by apply modify_wellFormed.
  - destruct lines as [|p lines].
    + rewrite addMultipleToCart_nil. simpl.
      apply (wellFormed_step σ _ u (getCartInternal u σ).1); [done|..].
      * simpl. by rewrite getCartInternal_storage.
      * by apply getCartInternal_valid.
      * intros r'. apply getCartInternal_grows.
    + rewrite addMultipleToCart_modify by done. by apply modify_wellFormed.
  - rewrite removeFromCart_modify. by apply modify_wellFormed.
  - rewrite updateCartPosition_modify. by apply modify_wellFormed.
  - apply (wellFormed_step σ _ u (alloc emptyCart σ).1); [done|done|..].
    + unfold clearCart. simpl. rewrite lookup_insert_eq. eauto.
    + intros r' Hr'. unfold clearCart. simpl.
      rewrite lookup_insert_ne; [done|].
      intros <-. by apply (alloc_fresh emptyCart σ), elem_of_dom.
Qed.

Lemma wellFormed_empty : wellFormed (mkCartApi ∅ ∅).
Proof. apply map_Forall_empty. Qed.

(** ** Additivity of [addToCart] *)

Lemma filter_isLineOf_unique a ps :
  NoDup (articleNumber <$> ps) →
  List.filter (isLineOf a) ps = [] ∨
  ∃ pos, List.filter (isLineOf a) ps = [pos] ∧ articleNumber pos = a.
Proof.
  induction ps as [|pos ps IH]; intros Hnd; [by left|].
  rewrite fmap_cons in Hnd. apply NoDup_cons in Hnd as [Hnot Hnd]. simpl.
  destruct (isLineOf a pos) eqn:E; [|auto].
  apply isLineOf_true in E. right. exists pos. split; [|done].
  rewrite E in Hnot. by rewrite (filter_isLineOf_absent _ _ Hnot).
Qed.

Lemma addLine_NoDup a q ps :
  NoDup (articleNumber <$> ps) → NoDup (articleNumber <$> addLine a q ps).
Proof. by apply upsert_NoDup. Qed.

Lemma setLine_NoDup a q ps :
  NoDup (articleNumber <$> ps) → NoDup (articleNumber <$> setLine a q ps).
Proof. by apply upsert_NoDup. Qed.

Lemma addLines_NoDup lines ps :
  NoDup (articleNumber <$> ps) → NoDup (articleNumber <$> addLines lines ps).
Proof.
  revert ps. induction lines as [|p lines IH]; intros ps Hnd; [done|].
  apply IH. by apply addLine_NoDup.
Qed.

Lemma jsAdd_exact a b : exactRange (a + b) → jsAdd a b = a + b.
Proof.
  unfold jsAdd, roundToDouble, exactRange. intros H.
  destruct (Z.leb_spec (Z.abs (a + b)) (2 ^ 53)); [done|lia].
Qed.

(** On the samples, [jsAdd] is the addition of the doubles. *)
Lemma jsAdd_agrees_with_doubles :
  Forall (λ ab, doubleToZ (doubleOfZ ab.1) = Some ab.1 ∧
                doubleToZ (doubleOfZ ab.2) = Some ab.2 ∧
                doubleToZ (doubleOfZ ab.1 + doubleOfZ ab.2)%float
                  = Some (jsAdd ab.1 ab.2))
         roundingSamples.
Proof. apply (bool_decide_unpack _). vm_compute. exact I. Qed.

Lemma filter_addLine_same a q ps :
  NoDup (articleNumber <$> ps) →
  exactRange (sumZ (quantity <$> List.filter (isLineOf a) ps) + q) →
  List.filter (isLineOf a) (addLine a q ps) =
  [{| articleNumber := a;
      quantity := sumZ (quantity <$> List.filter (isLineOf a) ps) + q |}].
Proof.
  intros Hnd. unfold addLine. rewrite filter_upsert_same by done.
  destruct (filter_isLineOf_unique a ps Hnd) as [->|(pos & -> & Ha)].
  - done.
  - unfold addQty, sumZ. simpl. rewrite Ha, Z.add_0_r. intros Hex.
    by rewrite jsAdd_exact.
Qed.







(** ** [addMultipleToCart] against the fold of [addToCart] *)

(** On an empty input [addMultipleToCart] still writes the entry. *)
Lemma addMultipleToCart_nil_unknown u σ :
  cartStorage σ !! u = None →
  cartStorage (addMultipleToCart u [] σ).2 !! u
    = Some (addMultipleToCart u [] σ).1 ∧
  load (addMultipleToCart u [] σ).1 (addMultipleToCart u [] σ).2 = emptyCart.
Proof.
  intros Hu. rewrite addMultipleToCart_nil. simpl. split.
  - apply lookup_insert_eq.
  - by rewrite load_storageSet, <- cartOf_spec, cartOf_unknown.
Qed.

(** C3, as amended: for every username and every input sequence that is
    not empty, and for every input sequence when the username already has
    an entry in the store, [addMultipleToCart] leaves the store state that
    [addToCart], called for each input line in the given order, leaves. *)
Theorem addMultipleToCart_fold (u : string) (lines : list CartPosition)
    (σ : CartApi) :
  lines ≠ [] ∨ is_Some (cartStorage σ !! u) →
  (addMultipleToCart u lines σ).2 = foldAddToCart u lines σ.
Proof.
  intros H. destruct lines as [|p lines].
  - destruct H as [H|[r Hr]]; [done|].
    rewrite addMultipleToCart_nil, (getCartInternal_known _ _ _ Hr). simpl.
    apply CartApi_eq; simpl; [|done]. by apply insert_id.
  - by rewrite addMultipleToCart_modify, foldAddToCart_cons.
Qed.

Lemma addMultipleToCart_fold_bob :
  let lines := [mkCartPosition "A" 1; mkCartPosition "B" 2; mkCartPosition "A" 3] in
  let σ := (addMultipleToCart "bob" lines (mkCartApi ∅ ∅)).2 in
  σ = foldAddToCart "bob" lines (mkCartApi ∅ ∅) ∧
  positions (cartOf σ "bob") = [mkCartPosition "A" 4; mkCartPosition "B" 2] ∧
  (getCartItemCount "bob" σ).1 = 6.
Proof.
  split.
  - apply (addMultipleToCart_fold "bob"
             [mkCartPosition "A" 1; mkCartPosition "B" 2; mkCartPosition "A" 3]
             (mkCartApi ∅ ∅)).
    left. discriminate.
  - vm_compute. done.
Defined.

(** On an empty input for a username without an entry, [addMultipleToCart]
    creates the entry and the fold of [addToCart] does not. *)
Lemma addMultipleToCart_fold_empty_differs :
  (addMultipleToCart "bob" [] (mkCartApi ∅ ∅)).2
  ≠ foldAddToCart "bob" [] (mkCartApi ∅ ∅).
Proof.
  intros H. apply (f_equal (λ σ, cartStorage σ !! "bob")) in H.
  vm_compute in H. discriminate.
Qed.

(** ** The uniqueness invariant *)

Lemma getCartInternal_load_other u σ r' :
  r' ≠ (getCartInternal u σ).1 →
  load r' (getCartInternal u σ).2 = load r' σ.
Proof.
  unfold getCartInternal. destruct (cartStorage σ !! u); [done|].
  simpl. intros Hne. unfold load. simpl. by rewrite lookup_insert_ne.
Qed.

Lemma cartOf_unique σ u : storeInvariant σ → uniqueLines (cartOf σ u).
Proof.
  intros Hinv. destruct (cartStorage σ !! u) as [r|] eqn:E.
  - rewrite (cartOf_known _ _ _ E). by apply (Hinv u r).
  - rewrite (cartOf_unknown _ _ E). constructor.
Qed.

(** A step that redirects [u] to [r] and changes no other object keeps the
    invariant when the cart behind [r] satisfies it. *)
Lemma storeInvariant_step σ σ' u r :
  storeInvariant σ →
  cartStorage σ' = <[u := r]> (cartStorage σ) →
  uniqueLines (load r σ') →
  (∀ r', r' ≠ r → load r' σ' = load r' σ) →
  storeInvariant σ'.
Proof.
  intros Hinv Hst Hr Hother v r' Hv. simpl.
  destruct (decide (r' = r)) as [->|Hne]; [done|].
  rewrite Hother by done. apply (Hinv v r').
  rewrite Hst in Hv. apply lookup_insert_Some in Hv as [[_ ?]|[_ ?]]; [|done].
  by subst.
Qed.

Lemma modify_invariant u g σ :
  (∀ ps, NoDup (articleNumber <$> ps) → NoDup (articleNumber <$> g ps)) →
  storeInvariant σ → storeInvariant (modify u g σ).2.
Proof.
  intros Hg Hinv.
  apply (storeInvariant_step σ _ u (modify u g σ).1); [done|..].
  - apply modify_storage.
  - rewrite modify_load. apply Hg. by apply cartOf_unique.
  - intros r' Hne. by apply modify_load_other.
Qed.

Lemma clearCart_lookup u σ :
  cartStorage (clearCart u σ) !! u = Some (alloc emptyCart σ).1.
Proof. unfold clearCart. simpl. apply lookup_insert_eq. Qed.

Lemma clearCart_cartOf u σ : cartOf (clearCart u σ) u = emptyCart.
Proof.
  rewrite (cartOf_known _ _ _ (clearCart_lookup u σ)).
  unfold clearCart, load. simpl. by rewrite lookup_insert_eq.
Qed.

Lemma clearCart_invariant u σ :
  storeInvariant σ → storeInvariant (clearCart u σ).
Proof.
  intros Hinv.
  apply (storeInvariant_step σ _ u (alloc emptyCart σ).1); [done|done|..].
  - unfold clearCart, load. simpl. rewrite lookup_insert_eq. constructor.
  - intros r' Hne. unfold clearCart, load. simpl. by rewrite lookup_insert_ne.
Qed.

Lemma addMultipleToCart_invariant u lines σ :
  storeInvariant σ → storeInvariant (addMultipleToCart u lines σ).2.
Proof.
  intros Hinv. destruct lines as [|p lines].
  - rewrite addMultipleToCart_nil. simpl.
    apply (storeInvariant_step σ _ u (getCartInternal u σ).1); [done|..].
    + simpl. by rewrite getCartInternal_storage.
    + rewrite load_storageSet, <- cartOf_spec. by apply cartOf_unique.
    + intros r' Hne. rewrite load_storageSet.
      by apply getCartInternal_load_other.
  - rewrite addMultipleToCart_modify by done.
    apply modify_invariant; [|done]. intros ps. apply addLines_NoDup.
Qed.

(** C6: every mutation of the store ([addToCart], [addMultipleToCart],
    [removeFromCart], [updateCartPosition], [clearCart]) keeps the
    invariant that every cart of the store has at most one line per
    article number. *)
Theorem exec_storeInvariant (m : Mutation) (σ : CartApi) :
  storeInvariant σ → storeInvariant (exec m σ).
Proof.
  intros Hinv. destruct m as [u a q|u lines|u a|u a q|u]; simpl.
  - rewrite addToCart_modify. apply modify_invariant; [|done].
    intros ps. apply addLine_NoDup.
  - by apply addMultipleToCart_invariant.
  - rewrite removeFromCart_modify. apply modify_invariant; [|done].
    intros ps. apply dropLine_NoDup.
  - rewrite updateCartPosition_modify. apply modify_invariant; [|done].
    intros ps. apply setLine_NoDup.
  - by apply clearCart_invariant.
Qed.

Lemma exec_storeInvariant_bob :
  storeInvariant
    (exec (AddLines "bob" [mkCartPosition "A" 1; mkCartPosition "A" 3])
          {| cartStorage := {[ "bob" := 1%positive ]};
             objects := {[ 1%positive :=
                             {| positions := [mkCartPosition "B" 2] |} ]} |}).
Proof.
  apply exec_storeInvariant.
  apply (bool_decide_unpack _). vm_compute. exact I.
Defined.

(** ** [updateCartPosition] replaces *)

Lemma filter_isLineOf_present a ps :
  List.filter (isLineOf a) ps ≠ [] → a ∈ articleNumber <$> ps.
Proof.
  intros Hne. destruct (decide (a ∈ articleNumber <$> ps)) as [|Hnot]; [done|].
  by rewrite (filter_isLineOf_absent _ _ Hnot) in Hne.
Qed.

Lemma filter_isLineOf_article a ps pos :
  pos ∈ List.filter (isLineOf a) ps → articleNumber pos = a.
Proof.
  rewrite list_elem_of_In, filter_In. intros [_ H]. by apply isLineOf_true.
Qed.

Lemma upsert_absent f new a ps :
  List.filter (isLineOf a) ps = [] → upsert f new a ps = ps ++ [new].
Proof.
  induction ps as [|pos ps IH]; [done|]. simpl. rewrite upsert_cons.
  destruct (isLineOf a pos); [done|]. intros H. by rewrite IH.
Qed.

Lemma filter_setLine_same a q ps :
  NoDup (articleNumber <$> ps) →
  List.filter (isLineOf a) (setLine a q ps) =
  [{| articleNumber := a; quantity := q |}].
Proof.
  intros Hnd. unfold setLine. rewrite filter_upsert_same by done.
  destruct (filter_isLineOf_unique a ps Hnd) as [->|(pos & -> & Ha)]; [done|].
  unfold setQty. by rewrite Ha.
Qed.

(** C7: on a cart with at most one line per article, after
    [updateCartPosition u a q] the cart of [u] has exactly one line for
    [a], with quantity [q]: when a line for [a] existed it is rewritten in
    place (same article numbers, same order), when none existed the line is
    appended; the lines of the other articles are untouched. *)
Theorem updateCartPosition_replaces (σ : CartApi) (u a : string) (q : Z) :
  uniqueLines (cartOf σ u) →
  linesFor a (cartOf (updateCartPosition u a q σ).2 u) =
    [{| articleNumber := a; quantity := q |}] ∧
  (linesFor a (cartOf σ u) ≠ [] →
   articleNumber <$> positions (cartOf (updateCartPosition u a q σ).2 u) =
   articleNumber <$> positions (cartOf σ u)) ∧
  (linesFor a (cartOf σ u) = [] →
   positions (cartOf (updateCartPosition u a q σ).2 u) =
   positions (cartOf σ u) ++ [{| articleNumber := a; quantity := q |}]) ∧
  (∀ b, b ≠ a →
   linesFor b (cartOf (updateCartPosition u a q σ).2 u) =
   linesFor b (cartOf σ u)).
Proof.
  intros Hnd. rewrite updateCartPosition_modify, modify_cartOf.
  unfold linesFor. simpl. split_and!.
  - by apply filter_setLine_same.
  - intros Hex%filter_isLineOf_present. unfold setLine.
    rewrite upsert_articles by done. by rewrite decide_True.
  - intros Habs. by apply upsert_absent.
  - intros b Hb. by apply filter_upsert_other.
Qed.

Lemma updateCartPosition_replaces_example :
  linesFor "A"
    (cartOf (updateCartPosition "u" "A" 5
               (addToCart "u" "A" 2 (mkCartApi ∅ ∅)).2).2 "u") =
  [{| articleNumber := "A"; quantity := 5 |}].
Proof.
  apply (updateCartPosition_replaces
           (addToCart "u" "A" 2 (mkCartApi ∅ ∅)).2 "u" "A" 5).
  apply (bool_decide_unpack _). vm_compute. exact I.
Defined.

(** ** Reads do not persist, mutations do *)

(** C9: for a username without an entry, [getCartInternal] returns a new
    object, an empty cart, and leaves [cartStorage] and every object that
    existed as they were; [getCart] returns the empty display with total
    [0], issues no lookup, and leaves the same store. *)
Theorem get_unknown_does_not_persist (σ : CartApi) (u : string) :
  cartStorage σ !! u = None →
  ((getCartInternal u σ).1 ∉ dom (objects σ)) ∧
  load (getCartInternal u σ).1 (getCartInternal u σ).2 = emptyCart ∧
  cartStorage (getCartInternal u σ).2 = cartStorage σ ∧
  cartStorage (getCartInternal u σ).2 !! u = None ∧
  (∀ r, r ∈ dom (objects σ) →
        objects (getCartInternal u σ).2 !! r = objects σ !! r) ∧
  (∀ (Net : Type) (fetch : string → Net → FetchResult * Net) (net : Net),
     getCart Net fetch u σ net =
     (Return {| d_positions := []; totalPositions := 0 |},
      (getCartInternal u σ).2, net)).
Proof.
  intros Hu. pose proof (cartOf_unknown _ _ Hu) as Hc.
  rewrite cartOf_spec in Hc. split_and!.
  - rewrite (getCartInternal_unknown _ _ Hu). apply alloc_fresh.
  - done.
  - apply getCartInternal_storage.
  - by rewrite getCartInternal_storage.
  - intros r Hr. rewrite (getCartInternal_unknown _ _ Hu). simpl.
    apply lookup_insert_ne. intros <-. by apply (alloc_fresh emptyCart σ).
  - intros Net fetch net. unfold getCart.
    destruct (getCartInternal u σ) as [r σ1]. simpl in *. by rewrite Hc.
Qed.

Lemma get_unknown_does_not_persist_example :
  let σ := (addToCart "bob" "B" 2 (mkCartApi ∅ ∅)).2 in
  cartStorage (getCartInternal "carol" σ).2 = cartStorage σ ∧
  positions (load (getCartInternal "carol" σ).1 (getCartInternal "carol" σ).2)
  = [].
Proof.
  destruct (get_unknown_does_not_persist
              (addToCart "bob" "B" 2 (mkCartApi ∅ ∅)).2 "carol")
    as (_ & Hl & Hs & _).
  - vm_compute. reflexivity.
  - simpl. by rewrite Hl, Hs.
Defined.

Lemma exec_writes_back (m : Mutation) (σ : CartApi) :
  is_Some (cartStorage (exec m σ) !! userOf m).
Proof.
  destruct m as [u a q|u lines|u a|u a q|u]; cbn [exec userOf].
  - rewrite addToCart_modify, modify_lookup. eauto.
  - unfold addMultipleToCart. destruct (getCartInternal u σ). simpl.
    rewrite lookup_insert_eq. eauto.
  - rewrite removeFromCart_modify, modify_lookup. eauto.
  - rewrite updateCartPosition_modify, modify_lookup. eauto.
  - rewrite clearCart_lookup. eauto.
Qed.

(** C10: every mutation leaves an entry for its username in the store;
    [removeFromCart] for a username without an entry creates one, and the
    cart it holds is empty, whatever the article number. *)
Theorem removeFromCart_unknown_persists (σ : CartApi) (u a : string) :
  cartStorage σ !! u = None →
  cartStorage (removeFromCart u a σ).2 !! u = Some (removeFromCart u a σ).1 ∧
  load (removeFromCart u a σ).1 (removeFromCart u a σ).2 = emptyCart ∧
  (∀ m σ', is_Some (cartStorage (exec m σ') !! userOf m)).
Proof.
  intros Hu. rewrite removeFromCart_modify. split_and!.
  - apply modify_lookup.
  - rewrite modify_load, (cartOf_unknown _ _ Hu). done.
  - apply exec_writes_back.
Qed.

Lemma removeFromCart_unknown_persists_example :
  storedLines (removeFromCart "carol" "X" (mkCartApi ∅ ∅)).2 "carol" = [] ∧
  is_Some (cartStorage (removeFromCart "carol" "X" (mkCartApi ∅ ∅)).2 !! "carol").
Proof.
  destruct (removeFromCart_unknown_persists (mkCartApi ∅ ∅) "carol" "X")
    as (Hs & Hl & _).
  - vm_compute. reflexivity.
  - unfold storedLines. rewrite Hs, Hl. eauto.
Defined.

(** ** The enriching read *)

Section GetCart.

Context {Net : Type} (fetch : string → Net → FetchResult * Net).

(** The body of the loop always completes: the [catch] takes every
    exception of the lookup. *)
Lemma resolvePosition_spec pos net :
  resolvePosition Net fetch pos net =
  (Return (displayLine pos
             (fetchTransgourmetArticleDetails Net fetch
                (articleNumber pos) net).1),
   (fetchTransgourmetArticleDetails Net fetch (articleNumber pos) net).2).
Proof.
  unfold resolvePosition.
  by destruct (fetchTransgourmetArticleDetails Net fetch _ net) as [[d|e] net'].
Qed.

Lemma resolvePositions_spec todo resolved net :
  (resolvePositions Net fetch todo resolved net).1 =
  Return (resolved ++ zip_with displayLine todo (lookups fetch todo net)).
Proof.
  revert resolved net.
  induction todo as [|pos todo IH]; intros resolved net; simpl.
  - by rewrite app_nil_r.
  - rewrite resolvePosition_spec.
    destruct (fetchTransgourmetArticleDetails Net fetch _ net) as [o net'].
    simpl. by rewrite IH, <- app_assoc.
Qed.

Lemma length_lookups ps net : length (lookups fetch ps net) = length ps.
Proof.
  revert net. induction ps as [|pos ps IH]; intros net; simpl; [done|].
  destruct (fetchTransgourmetArticleDetails Net fetch _ net) as [o net'].
  simpl. by rewrite IH.
Qed.

Lemma getCart_spec u σ net :
  (getCart Net fetch u σ net).1.1 =
  Return
    {| d_positions :=
         zip_with displayLine (positions (cartOf σ u))
                  (lookups fetch (positions (cartOf σ u)) net);
       totalPositions :=
         fold_left (λ total pos, jsAdd total (d_quantity pos))
           (zip_with displayLine (positions (cartOf σ u))
                     (lookups fetch (positions (cartOf σ u)) net)) 0 |}.
Proof.
  rewrite cartOf_spec. unfold getCart.
  destruct (getCartInternal u σ) as [r σ1]. simpl.
  pose proof (resolvePositions_spec (positions (load r σ1)) [] net) as H.
  destruct (resolvePositions Net fetch _ [] net) as [[ds|e] net'];
    simpl in H; [|done].
  by injection H as ->.
Qed.

Lemma getCart_storage u σ net :
  cartStorage (getCart Net fetch u σ net).1.2 = cartStorage σ.
Proof.
  unfold getCart. pose proof (getCartInternal_storage σ u) as H.
  destruct (getCartInternal u σ) as [r σ1].
  by destruct (resolvePositions Net fetch _ [] net) as [[ds|e] net'].
Qed.

Lemma displayLine_line pos o :
  (d_articleNumber (displayLine pos o), d_quantity (displayLine pos o)) =
  (articleNumber pos, quantity pos).
Proof. by destruct o. Qed.

Lemma zip_displayLine_lines ps os :
  length os = length ps →
  (λ d, (d_articleNumber d, d_quantity d)) <$> zip_with displayLine ps os =
  (λ pos, (articleNumber pos, quantity pos)) <$> ps.
Proof.
  revert os. induction ps as [|pos ps IH]; intros [|o os] Hlen;
    simplify_eq/=; [done|].
  rewrite displayLine_line. f_equal. by apply IH.
Qed.

Lemma fold_left_sum {A} (f : A → Z) (l : list A) (z : Z) :
  Forall exactRange (runningTotals z (f <$> l)) →
  fold_left (λ total x, jsAdd total (f x)) l z = z + sumZ (f <$> l).
Proof.
  revert z. induction l as [|x l IH]; intros z Hex.
  - unfold sumZ. simpl. lia.
  - rewrite fmap_cons in Hex. cbn [runningTotals] in Hex.
    apply Forall_cons in Hex as [Hx Hex].
    cbn [fold_left]. rewrite jsAdd_exact, IH, fmap_cons by done.
    unfold sumZ. cbn [foldr]. lia.
Qed.

(** [getCart] returns, whatever the catalog does. *)
Lemma getCart_returns u σ net :
  ∃ d, (getCart Net fetch u σ net).1.1 = Return d.
Proof. rewrite getCart_spec. eauto. Qed.

(** C1: when the lookup of the [i]-th line of the cart throws, [getCart]
    still returns a display; its [i]-th line carries the line's article
    number and quantity, the empty description, price [0] and the
    synthesized image URL; the display has one line per stored line, and
    every line whose lookup returned carries the description and price of
    the response. *)
Theorem getCart_degraded_line (σ : CartApi) (net : Net) (u : string)
    (i : nat) (pos : CartPosition) (e : Error) :
  positions (cartOf σ u) !! i = Some pos →
  lookups fetch (positions (cartOf σ u)) net !! i = Some (Throw e) →
  ∃ d, (getCart Net fetch u σ net).1.1 = Return d ∧
    d_positions d !! i =
      Some {| d_articleNumber := articleNumber pos;
              d_quantity := quantity pos;
              d_description := "";
              d_price := 0%Q;
              d_imageUrl := imageUrl (articleNumber pos) |} ∧
    length (d_positions d) = length (positions (cartOf σ u)) ∧
    (∀ j pos' details,
       positions (cartOf σ u) !! j = Some pos' →
       lookups fetch (positions (cartOf σ u)) net !! j
         = Some (Return details) →
       d_positions d !! j =
         Some {| d_articleNumber := articleNumber pos';
                 d_quantity := quantity pos';
                 d_description := default "" (a_description details);
                 d_price := a_normalPrice details;
                 d_imageUrl := imageUrl (articleNumber pos') |}).
Proof.
  intros Hpos Hout. eexists. split; [apply getCart_spec|]. simpl.
  split_and!.
  - rewrite lookup_zip_with, Hpos, Hout. done.
  - rewrite length_zip_with, length_lookups. lia.
  - intros j pos' details Hj Hoj. rewrite lookup_zip_with, Hj, Hoj. done.
Qed.

(** C4: the display lines of [getCart] are the stored lines of the cart,
    article number and quantity, in the stored order, whatever the
    lookups return. *)
Theorem getCart_preserves_order (σ : CartApi) (net : Net) (u : string) :
  ∃ d, (getCart Net fetch u σ net).1.1 = Return d ∧
    (λ l, (d_articleNumber l, d_quantity l)) <$> d_positions d =
    (λ pos, (articleNumber pos, quantity pos)) <$> positions (cartOf σ u).
Proof.
  eexists. split; [apply getCart_spec|]. simpl.
  apply zip_displayLine_lines, length_lookups.
Qed.

Lemma getCartItemCount_spec u σ :
  Forall exactRange (runningTotals 0 (quantity <$> positions (cartOf σ u))) →
  (getCartItemCount u σ).1 = sumZ (quantity <$> positions (cartOf σ u)).
Proof.
  rewrite cartOf_spec. unfold getCartItemCount.
  destruct (getCartInternal u σ) as [r σ1]. simpl. intros Hex.
  rewrite fold_left_sum by done. lia.
Qed.

Lemma getCartItemCount_empty u σ :
  positions (cartOf σ u) = [] → (getCartItemCount u σ).1 = 0.
Proof.
  rewrite cartOf_spec. unfold getCartItemCount.
  destruct (getCartInternal u σ) as [r σ1]. simpl. by intros ->.
Qed.


End GetCart.

Lemma getCart_degraded_line_example :
  let σ := (addMultipleToCart "bob"
              [mkCartPosition "X" 1; mkCartPosition "Y" 2] (mkCartApi ∅ ∅)).2 in
  ∃ d, (getCart unit demoFetch "bob" σ ()).1.1 = Return d ∧
    d_positions d =
      [ {| d_articleNumber := "X"; d_quantity := 1; d_description := "";
           d_price := 0%Q;
           d_imageUrl :=
             "https://webshop.transgourmet.ch/images/articles/120px/X.jpg" |};
        {| d_articleNumber := "Y"; d_quantity := 2;
           d_description := "Joghurt nature"; d_price := (5 # 2)%Q;
           d_imageUrl :=
             "https://webshop.transgourmet.ch/images/articles/120px/Y.jpg" |} ].
Proof.
  destruct (getCart_degraded_line demoFetch
              (addMultipleToCart "bob"
                 [mkCartPosition "X" 1; mkCartPosition "Y" 2]
                 (mkCartApi ∅ ∅)).2
              () "bob" 0%nat (mkCartPosition "X" 1) (NetworkError "ECONNREFUSED"))
    as (d & Hd & _).
  - vm_compute. reflexivity.
  - vm_compute. reflexivity.
  - exists d. split; [exact Hd|].
    vm_compute in Hd. injection Hd as <-. reflexivity.
Defined.



(** ** Submission *)

Section Submit.

Context {Net Entropy : Type}.
Variable fetch : string → Net → FetchResult * Net.
Variable randomUUID : Entropy → string * Entropy.

Lemma nthUUID_next e n :
  nthUUID randomUUID (randomUUID e).2 n = nthUUID randomUUID e (S n).
Proof. unfold nthUUID. by rewrite Nat.iter_succ_r. Qed.

Lemma step_entropy c w :
  (∃ id, (step fetch randomUUID c w).1 = Some id ∧
         id = nthUUID randomUUID (entropy w) 0 ∧
         entropy (step fetch randomUUID c w).2 = (randomUUID (entropy w)).2)
  ∨ ((step fetch randomUUID c w).1 = None ∧
     entropy (step fetch randomUUID c w).2 = entropy w).
Proof.
  destruct c as [m|u|u|u]; simpl.
  - by right.
  - right. by destruct (getCart Net fetch u (store w) (network w)) as [[? ?] ?].
  - by right.
  - left. unfold submitCart, nthUUID. simpl.
    destruct (randomUUID (entropy w)) as [id e']. simpl. eauto.
Qed.

(** The identifiers a history issues are the first ones the generator
    yields, in order. *)
Lemma run_issued history w :
  ∃ n, (run fetch randomUUID history w).1
         = nthUUID randomUUID (entropy w) <$> seq 0 n ∧
       entropy (run fetch randomUUID history w).2
         = Nat.iter n (λ e', (randomUUID e').2) (entropy w).
Proof.
  revert w. induction history as [|c history IH]; intros w.
  - by exists 0%nat.
  - simpl. pose proof (step_entropy c w) as Hstep.
    destruct (step fetch randomUUID c w) as [o w'].
    destruct (IH w') as (n & Hids & Hent).
    destruct (run fetch randomUUID history w') as [issued w'']. simpl in *.
    destruct Hstep as [(id & -> & -> & He)|[-> He]]; rewrite He in *.
    + exists (S n). split.
      * simpl. f_equal. rewrite Hids, <- fmap_S_seq, <- list_fmap_compose.
        apply list_fmap_ext. intros ? k _. apply nthUUID_next.
      * by rewrite Nat.iter_succ_r.
    + by exists n.
Qed.

Lemma getCart_empty u σ net :
  positions (cartOf σ u) = [] →
  (getCart Net fetch u σ net).1.1 =
  Return {| d_positions := []; totalPositions := 0 |}.
Proof. intros H. by rewrite getCart_spec, H. Qed.

(** C8, as amended: [submitCart] returns the identifier that its one call
    to the generator yields: the identifiers issued over a history of calls
    are the successive outputs of the generator, one per [submitCart], in
    order, and the store keeps no record of them, so the identifier
    returned is distinct from the ones issued before exactly when that
    output of the generator differs from its earlier outputs.  After
    [submitCart] the cart of the username is empty ([getCartInternal] and
    [getCart] return no position, [getCartItemCount] returns [0]) and the
    store still has an entry for the username. *)
Theorem submitCart_issues_and_empties (history : list Command)
    (w : World Net Entropy) (u : string) :
  let issued := (run fetch randomUUID history w).1 in
  let w1 := (run fetch randomUUID history w).2 in
  let submitted := submitCart Entropy randomUUID u (store w1) (entropy w1) in
  issued = nthUUID randomUUID (entropy w) <$> seq 0 (length issued) ∧
  submitted.1.1 = nthUUID randomUUID (entropy w) (length issued) ∧
  ((submitted.1.1 ∉ issued) ↔
   ∀ k, (k < length issued)%nat →
        nthUUID randomUUID (entropy w) k
        ≠ nthUUID randomUUID (entropy w) (length issued)) ∧
  positions (cartOf submitted.1.2 u) = [] ∧
  (∀ net, (getCart Net fetch u submitted.1.2 net).1.1 =
          Return {| d_positions := []; totalPositions := 0 |}) ∧
  (getCartItemCount u submitted.1.2).1 = 0 ∧
  is_Some (cartStorage submitted.1.2 !! u).
Proof.
  intros issued w1 submitted.
  destruct (run_issued history w) as (n & Hids & Hent).
  fold issued in Hids. fold w1 in Hent.
  assert (Hn : length issued = n) by (by rewrite Hids, length_fmap, length_seq).
  assert (Hid : submitted.1.1 = nthUUID randomUUID (entropy w) n).
  { unfold submitted, submitCart, nthUUID. rewrite <- Hent.
    by destruct (randomUUID (entropy w1)). }
  assert (Hst : submitted.1.2 = clearCart u (store w1)).
  { unfold submitted, submitCart. by destruct (randomUUID (entropy w1)). }
  rewrite Hst, Hid, Hn. split_and!.
  - done.
  - done.
  - rewrite Hids. split.
    + intros Hnot k Hk Heq. apply Hnot, list_elem_of_fmap.
      exists k. split; [done|]. apply elem_of_seq. lia.
    + intros Hall (k & Heq & Hk)%list_elem_of_fmap.
      apply elem_of_seq in Hk. apply (Hall k); [lia|done].
  - by rewrite clearCart_cartOf.
  - intros net. apply getCart_empty. by rewrite clearCart_cartOf.
  - apply getCartItemCount_empty. by rewrite clearCart_cartOf.
  - rewrite clearCart_lookup. eauto.
Qed.

End Submit.

Lemma submitCart_issues_and_empties_example :
  let history :=
    [Mutate (AddLine "alice" "095210" 1); SubmitCart "alice";
     Mutate (AddLine "alice" "095210" 2); GetCart "alice"] in
  let w := mkWorld (mkCartApi ∅ ∅) () 0%nat in
  let w1 := (run demoFetch demoUUID history w).2 in
  let submitted := submitCart nat demoUUID "alice" (store w1) (entropy w1) in
  (run demoFetch demoUUID history w).1 = ["0"] ∧
  submitted.1.1 = "1" ∧
  storedLines submitted.1.2 "alice" = [].
Proof.
  intros history w w1 submitted.
  destruct (submitCart_issues_and_empties demoFetch demoUUID history w "alice")
    as (_ & _ & _ & Hempty & _).
  fold w1 submitted in Hempty.
  split_and!; [by vm_compute|by vm_compute|].
  by rewrite <- cartOf_storedLines.
Defined.

(** With a generator that yields a value twice, [submitCart] returns an
    identifier it has issued before. *)
Lemma submitCart_repeats :
  let w := mkWorld (mkCartApi ∅ ∅) () () in
  let w1 := (run demoFetch stuckUUID [SubmitCart "alice"] w).2 in
  ¬ ((submitCart unit stuckUUID "bob" (store w1) (entropy w1)).1.1
     ∉ (run demoFetch stuckUUID [SubmitCart "alice"] w).1).
Proof. vm_compute. intros H. apply H. apply list_elem_of_here. Qed.

(** Leaving out the element [x] shortens a list that holds it. *)
Lemma length_filter_ne (x : string) (k : list string) :
  x ∈ k →
  (length (List.filter (λ y, negb (String.eqb y x)) k) < length k)%nat.
Proof.
  induction k as [|y k IH]; [by intros ?%elem_of_nil|].
  pose proof (filter_length_le (λ y, negb (String.eqb y x)) k) as Hle.
  intros Hin. simpl. destruct (String.eqb y x) eqn:E; simpl.
  - lia.
  - apply String.eqb_neq in E.
    apply elem_of_cons in Hin as [->|Hin]; [done|].
    specialize (IH Hin). lia.
Qed.

(** More values than the range holds: two of them are equal. *)
Lemma pigeonhole (l k : list string) :
  (∀ x, x ∈ l → x ∈ k) → (length k < length l)%nat →
  ∃ i j x, (i < j)%nat ∧ l !! i = Some x ∧ l !! j = Some x.
Proof.
  revert k. induction l as [|x l IH]; intros k Hsub Hlen; [simpl in Hlen; lia|].
  destruct (decide (x ∈ l)) as [Hin|Hnot].
  - apply list_elem_of_lookup in Hin as [j Hj].
    exists 0%nat, (S j), x. split_and!; [lia|done|done].
  - destruct (IH (List.filter (λ y, negb (String.eqb y x)) k))
      as (i & j & y & Hij & Hi & Hj).
    + intros y Hy. rewrite list_elem_of_In, filter_In, <- list_elem_of_In.
      split; [apply Hsub; by apply list_elem_of_further|].
      apply negb_true_iff, String.eqb_neq. by intros ->.
    + pose proof (length_filter_ne x k (Hsub x (list_elem_of_here _ _))).
      simpl in Hlen. lia.
    + exists (S i), (S j), y. split_and!; [lia|done|done].
Qed.

(** No generator over a finite range, such as the texts of 36 characters,
    keeps its outputs distinct: among any [length range + 1] successive
    outputs two are equal. *)
Lemma finite_range_repeats {Entropy : Type}
    (randomUUID : Entropy → string * Entropy) (range : list string)
    (e : Entropy) :
  (∀ e', (randomUUID e').1 ∈ range) →
  ∃ n m, (n < m ≤ length range)%nat ∧
         nthUUID randomUUID e n = nthUUID randomUUID e m.
Proof.
  intros Hrange.
  destruct (pigeonhole (nthUUID randomUUID e <$> seq 0 (S (length range))) range)
    as (i & j & x & Hij & Hi & Hj).
  - intros x (n & -> & _)%list_elem_of_fmap. apply Hrange.
  - rewrite length_fmap, length_seq. lia.
  - rewrite list_lookup_fmap in Hi, Hj.
    destruct (seq 0 (S (length range)) !! i) as [n|] eqn:Hn; [|done].
    destruct (seq 0 (S (length range)) !! j) as [m|] eqn:Hm; [|done].
    apply lookup_seq in Hn as [-> Hi']. apply lookup_seq in Hm as [-> Hj'].
    simpl in Hi, Hj. exists i, j. split; [lia|congruence].
Qed.


(** ** [removeFromCart] *)

Lemma dropLine_idempotent a ps : dropLine a (dropLine a ps) = dropLine a ps.
Proof.
  unfold dropLine. induction ps as [|pos ps IH]; simpl; [done|].
  destruct (String.eqb (articleNumber pos) a) eqn:E; simpl; [done|].
  by rewrite E, IH.
Qed.

(** ** The catalog lookup *)

(** [fetchTransgourmetArticleDetails] returns exactly when the
    request to the details URL of the article is answered with a success
    status and an article object, whose fields it returns; on a rejected
    request, another status, a body that is not JSON or a [null] body it
    throws. *)
Lemma fetchTransgourmetArticleDetails_returns {Net : Type}
    (fetch : string → Net → FetchResult * Net) article net details :
  (fetchTransgourmetArticleDetails Net fetch article net).1 = Return details ↔
  ∃ response,
    (fetch ("https://webshop.transgourmet.ch/api/webshop/hub/bgh/articledetails/"
              +:+ article) net).1 = Fulfilled response ∧
    ok response = true ∧
    json response = Article (a_articleNumber details) (a_description details)
                            (a_normalPrice details).
Proof.
  unfold fetchTransgourmetArticleDetails.
  destruct (fetch _ net) as [[reason|response] net']; simpl.
  - split; [done|]. by intros (? & ? & _).
  - destruct (ok response) eqn:Hok; simpl.
    + destruct (json response) as [| |n d p] eqn:Hj; simpl.
      * split; [done|]. intros (? & [= <-] & _ & ?). congruence.
      * split; [done|]. intros (? & [= <-] & _ & ?). congruence.
      * split.
        -- intros [= <-]. eauto.
        -- intros (? & [= <-] & _ & Hj'). rewrite Hj in Hj'.
           injection Hj' as -> -> ->. by destruct details.
    + split; [done|]. intros (? & [= <-] & ? & _). congruence.
Qed.

(** ** The shape of a mutation *)

(** Every mutation redirects its username to one object [r], which is the
    object the username had or a new one, and changes no other object. *)
Lemma exec_shape (m : Mutation) (σ : CartApi) :
  ∃ r,
    cartStorage (exec m σ) = <[userOf m := r]> (cartStorage σ) ∧
    (∀ r', r' ≠ r → objects (exec m σ) !! r' = objects σ !! r') ∧
    (cartStorage σ !! userOf m = Some r ∨ r ∉ dom (objects σ)).
Proof.
  assert (Hget : ∀ u,
    (∀ r', r' ≠ (getCartInternal u σ).1 →
           objects (getCartInternal u σ).2 !! r' = objects σ !! r') ∧
    (cartStorage σ !! u = Some (getCartInternal u σ).1 ∨
     (getCartInternal u σ).1 ∉ dom (objects σ))).
  { intros u. unfold getCartInternal.
    destruct (cartStorage σ !! u) as [r|] eqn:E; simpl.
    - split; [done|by left].
    - split; [|right; apply is_fresh].
      intros r' Hne. by rewrite lookup_insert_ne. }
  assert (Hmod : ∀ u g,
    cartStorage (modify u g σ).2 = <[u := (modify u g σ).1]> (cartStorage σ) ∧
    (∀ r', r' ≠ (modify u g σ).1 →
           objects (modify u g σ).2 !! r' = objects σ !! r') ∧
    (cartStorage σ !! u = Some (modify u g σ).1 ∨
     (modify u g σ).1 ∉ dom (objects σ))).
  { intros u g. split; [apply modify_storage|].
    destruct (Hget u) as [Ho Hr]. revert Ho Hr. unfold modify.
    destruct (getCartInternal u σ) as [r σ1]. simpl. intros Ho Hr.
    split; [|done].
    intros r' Hne. rewrite lookup_insert_ne by done. by apply Ho. }
  destruct m as [u a q|u lines|u a|u a q|u]; cbn [exec userOf].
  - rewrite addToCart_modify. eexists. apply Hmod.
  - destruct lines as [|p lines].
    + rewrite addMultipleToCart_nil. simpl.
      exists (getCartInternal u σ).1. destruct (Hget u) as [Ho Hr].
      split_and!; [by rewrite getCartInternal_storage|done|done].
    + rewrite addMultipleToCart_modify by done. eexists. apply Hmod.
  - rewrite removeFromCart_modify. eexists. apply Hmod.
  - rewrite updateCartPosition_modify. eexists. apply Hmod.
  - exists (alloc emptyCart σ).1. unfold clearCart. simpl. split_and!.
    + done.
    + intros r' Hne. by rewrite lookup_insert_ne.
    + right. apply is_fresh.
Qed.

Lemma exec_noSharing (m : Mutation) (σ : CartApi) :
  wellFormed σ → noSharing σ → noSharing (exec m σ).
Proof.
  intros Hwf Hns. destruct (exec_shape m σ) as (r & Hst & _ & Hr).
  assert (Hold : ∀ w, w ≠ userOf m → cartStorage σ !! w ≠ Some r).
  { intros w Hw Hlook. destruct Hr as [Hr|Hr].
    - apply Hw. by apply (Hns w (userOf m) r).
    - apply Hr, elem_of_dom. by apply (Hwf w r). }
  intros u v r'. rewrite Hst, !lookup_insert_Some.
  intros [[Hu Hru]|[Hu Hlu]] [[Hv Hrv]|[Hv Hlv]]; subst.
  - done.
  - by destruct (Hold v).
  - by destruct (Hold u).
  - by apply (Hns u v r').
Qed.

Lemma exec_consistent (m : Mutation) (σ : CartApi) :
  consistent σ → consistent (exec m σ).
Proof.
  intros (Hinv & Hwf & Hns). split_and!.
  - destruct m as [u a q|u lines|u a|u a q|u]; cbn [exec].
    + rewrite addToCart_modify. apply modify_invariant; [|done].
      intros ps. apply addLine_NoDup.
    + by apply addMultipleToCart_invariant.
    + rewrite removeFromCart_modify. apply modify_invariant; [|done].
      intros ps. apply dropLine_NoDup.
    + rewrite updateCartPosition_modify. apply modify_invariant; [|done].
      intros ps. apply setLine_NoDup.
    + by apply clearCart_invariant.
  - by apply exec_wellFormed.
  - by apply exec_noSharing.
Qed.

Lemma consistent_empty : consistent (mkCartApi ∅ ∅).
Proof.
  split_and!; [apply map_Forall_empty|apply map_Forall_empty|].
  intros u v r Hu. simpl in Hu. by rewrite lookup_empty in Hu.
Qed.

Lemma load_agree σ σ' r :
  objects σ' !! r = objects σ !! r → load r σ' = load r σ.
Proof. unfold load. by intros ->. Qed.

(** X1: on a store without dangling or shared references, a mutation for
    one username leaves the entry and the lines of every other username as
    they were. *)
Theorem exec_other_users (m : Mutation) (σ : CartApi) (v : string) :
  wellFormed σ → noSharing σ → v ≠ userOf m →
  cartStorage (exec m σ) !! v = cartStorage σ !! v ∧
  storedLines (exec m σ) v = storedLines σ v.
Proof.
  intros Hwf Hns Hv. destruct (exec_shape m σ) as (r & Hst & Hobj & Hr).
  assert (Hlook : cartStorage (exec m σ) !! v = cartStorage σ !! v).
  { rewrite Hst. by apply lookup_insert_ne. }
  split; [done|]. unfold storedLines. rewrite Hlook.
  destruct (cartStorage σ !! v) as [r'|] eqn:E; [|done].
  f_equal. apply load_agree, Hobj. intros ->. destruct Hr as [Hr|Hr].
  - apply Hv. by apply (Hns v (userOf m) r).
  - apply Hr, elem_of_dom. by apply (Hwf v r).
Qed.

Lemma exec_other_users_example :
  storedLines
    (exec (RemoveLine "alice" "A")
       (exec (AddLine "bob" "A" 2) (exec (AddLine "alice" "A" 1)
                                         (mkCartApi ∅ ∅)))) "bob"
  = [mkCartPosition "A" 2].
Proof.
  destruct (exec_other_users (RemoveLine "alice" "A")
              (exec (AddLine "bob" "A" 2)
                 (exec (AddLine "alice" "A" 1) (mkCartApi ∅ ∅))) "bob")
    as [_ H].
  - apply exec_consistent, exec_consistent, consistent_empty.
  - apply exec_consistent, exec_consistent, consistent_empty.
  - discriminate.
  - rewrite H. vm_compute. reflexivity.
Defined.


(** ** Reads *)

Lemma getCartInternal_load u σ r :
  load r (getCartInternal u σ).2 = load r σ.
Proof.
  unfold getCartInternal. destruct (cartStorage σ !! u); [done|]. simpl.
  unfold load. simpl.
  destruct (decide (fresh (dom (objects σ)) = r)) as [<-|Hne].
  - rewrite lookup_insert_eq.
    by rewrite (proj1 (not_elem_of_dom _ _) (is_fresh (dom (objects σ)))).
  - by rewrite lookup_insert_ne.
Qed.

Lemma getCartInternal_storedLines u σ v :
  storedLines (getCartInternal u σ).2 v = storedLines σ v.
Proof.
  unfold storedLines. rewrite getCartInternal_storage.
  destruct (cartStorage σ !! v); [|done]. by rewrite getCartInternal_load.
Qed.

Lemma getCartInternal_consistent u σ :
  consistent σ → consistent (getCartInternal u σ).2.
Proof.
  intros (Hinv & Hwf & Hns). split_and!.
  - intros v r Hv. simpl. rewrite getCartInternal_storage in Hv.
    rewrite getCartInternal_load. by apply (Hinv v r).
  - intros v r Hv. simpl. rewrite getCartInternal_storage in Hv.
    apply getCartInternal_grows. by apply (Hwf v r).
  - intros v w r. rewrite getCartInternal_storage. apply Hns.
Qed.

Lemma getCart_store {Net : Type} (fetch : string → Net → FetchResult * Net)
    u σ net :
  (getCart Net fetch u σ net).1.2 = (getCartInternal u σ).2.
Proof.
  unfold getCart. destruct (getCartInternal u σ) as [r σ1].
  by destruct (resolvePositions Net fetch _ [] net) as [[ds|e] net'].
Qed.

Lemma getCartItemCount_store u σ :
  (getCartItemCount u σ).2 = (getCartInternal u σ).2.
Proof. unfold getCartItemCount. by destruct (getCartInternal u σ). Qed.

(** X2: [getCart] and [getCartItemCount] are reads: whatever the username
    asked for and whatever the catalog answers, the map of the store is
    unchanged and every username has the lines it had. *)
Theorem reads_leave_the_store {Net : Type}
    (fetch : string → Net → FetchResult * Net)
    (σ : CartApi) (net : Net) (u v : string) :
  cartStorage (getCart Net fetch u σ net).1.2 = cartStorage σ ∧
  storedLines (getCart Net fetch u σ net).1.2 v = storedLines σ v ∧
  cartStorage (getCartItemCount u σ).2 = cartStorage σ ∧
  storedLines (getCartItemCount u σ).2 v = storedLines σ v.
Proof.
  rewrite getCart_store, getCartItemCount_store.
  split_and!; auto using getCartInternal_storage, getCartInternal_storedLines.
Qed.

(** ** Sessions *)

Section SessionInvariant.

Context {Net Entropy : Type}.
Variable fetch : string → Net → FetchResult * Net.
Variable randomUUID : Entropy → string * Entropy.

Lemma step_consistent c (w : World Net Entropy) :
  consistent (store w) → consistent (store (step fetch randomUUID c w).2).
Proof.
  intros Hc. destruct c as [m|u|u|u]; simpl.
  - by apply exec_consistent.
  - pose proof (getCart_store fetch u (store w) (network w)) as Hs.
    destruct (getCart Net fetch u (store w) (network w)) as [[o σ'] net'].
    simpl in *. subst σ'. by apply getCartInternal_consistent.
  - rewrite getCartItemCount_store. by apply getCartInternal_consistent.
  - unfold submitCart. destruct (randomUUID (entropy w)) as [id e']. simpl.
    by apply (exec_consistent (Clear u)).
Qed.

(** X3: a session keeps the store consistent: after any history of calls
    on a store where every cart has at most one line per article and no
    reference is dangling or shared between usernames, the same holds. *)
Theorem run_consistent (history : list Command) (w : World Net Entropy) :
  consistent (store w) →
  consistent (store (run fetch randomUUID history w).2).
Proof.
  revert w. induction history as [|c history IH]; intros w Hc; [done|].
  simpl. pose proof (step_consistent c w Hc) as Hstep.
  destruct (step fetch randomUUID c w) as [o w'].
  specialize (IH w' Hstep).
  by destruct (run fetch randomUUID history w') as [issued w''].
Qed.

End SessionInvariant.

Lemma run_consistent_example :
  consistent
    (store (run demoFetch demoUUID
              [Mutate (AddLines "bob" [mkCartPosition "A" 1;
                                       mkCartPosition "A" 3]);
               GetCart "carol"; SubmitCart "bob";
               Mutate (SetLineQuantity "carol" "B" 2)]
              (mkWorld (mkCartApi ∅ ∅) () 0%nat)).2).
Proof. apply run_consistent. apply consistent_empty. Defined.

(** ** Item counts *)

Lemma sumZ_cons z l : sumZ (z :: l) = z + sumZ l.
Proof. reflexivity. Qed.

Lemma sumZ_app l1 l2 : sumZ (l1 ++ l2) = sumZ l1 + sumZ l2.
Proof.
  induction l1 as [|z l1 IH]; [unfold sumZ; simpl; lia|].
  rewrite <- app_comm_cons, !sumZ_cons, IH. lia.
Qed.

Lemma sumZ_nonneg l : Forall (λ q, 0 ≤ q) l → 0 ≤ sumZ l.
Proof.
  induction 1 as [|z l Hz Hl IH]; [done|]. rewrite sumZ_cons. lia.
Qed.

Lemma sumZ_elem_le l z : Forall (λ q, 0 ≤ q) l → z ∈ l → z ≤ sumZ l.
Proof.
  induction 1 as [|y l Hy Hl IH]; [by intros ?%elem_of_nil|].
  pose proof (sumZ_nonneg l Hl). rewrite sumZ_cons.
  intros [->|Hin]%elem_of_cons; [lia|]. specialize (IH Hin). lia.
Qed.

Lemma withinRange_app l1 l2 :
  withinRange (l1 ++ l2) ↔
  Forall (λ q, 0 ≤ q) l1 ∧ Forall (λ q, 0 ≤ q) l2 ∧ sumZ l1 + sumZ l2 ≤ 2 ^ 53.
Proof. unfold withinRange. rewrite Forall_app, sumZ_app. tauto. Qed.

Lemma runningTotals_exact z qs :
  0 ≤ z → Forall (λ q, 0 ≤ q) qs → z + sumZ qs ≤ 2 ^ 53 →
  Forall exactRange (runningTotals z qs).
Proof.
  intros Hz Hqs. revert z Hz. induction Hqs as [|q qs Hq Hqs IH]; intros z Hz Hs.
  - constructor.
  - rewrite sumZ_cons in Hs. pose proof (sumZ_nonneg qs Hqs).
    cbn [runningTotals]. constructor.
    + unfold exactRange. lia.
    + apply IH; lia.
Qed.

Lemma withinRange_exact qs :
  withinRange qs → Forall exactRange (runningTotals 0 qs).
Proof. intros [Hq Hs]. apply runningTotals_exact; [done|done|lia]. Qed.

(** The count of a cart whose quantities are within range is their sum. *)
Lemma itemCount_withinRange u σ :
  withinRange (quantity <$> positions (cartOf σ u)) →
  (getCartItemCount u σ).1 = sumZ (quantity <$> positions (cartOf σ u)).
Proof. intros H. by apply getCartItemCount_spec, withinRange_exact. Qed.

Lemma addLine_withinRange a q ps :
  withinRange ((quantity <$> ps) ++ [q]) →
  withinRange (quantity <$> addLine a q ps) ∧
  sumZ (quantity <$> addLine a q ps) = sumZ (quantity <$> ps) + q.
Proof.
  rewrite withinRange_app. unfold withinRange.
  change (sumZ [q]) with (q + 0). rewrite Forall_singleton.
  unfold addLine. induction ps as [|pos ps IH]; intros (Hps & Hq & Hs).
  - rewrite upsert_nil. change (sumZ (quantity <$> [])) with 0 in *.
    simpl. rewrite Forall_singleton. unfold sumZ. simpl. lia.
  - rewrite fmap_cons in Hps, Hs. apply Forall_cons in Hps as [Hpos Hps].
    rewrite sumZ_cons in Hs. pose proof (sumZ_nonneg _ Hps) as Hnn.
    rewrite upsert_cons. destruct (isLineOf a pos).
    + rewrite !fmap_cons, !sumZ_cons, Forall_cons. unfold addQty. simpl.
      rewrite jsAdd_exact by (unfold exactRange; lia). split_and!; [lia|done|lia|lia].
    + destruct IH as [[IH1 IH2] IH3]; [split_and!; [done|done|lia]|].
      rewrite !fmap_cons, !sumZ_cons, Forall_cons, IH3. split_and!; [done|done|lia|lia].
Qed.

Lemma addLines_withinRange lines ps :
  withinRange ((quantity <$> ps) ++ (quantity <$> lines)) →
  withinRange (quantity <$> addLines lines ps) ∧
  sumZ (quantity <$> addLines lines ps) =
    sumZ (quantity <$> ps) + sumZ (quantity <$> lines).
Proof.
  revert ps. induction lines as [|p lines IH]; intros ps.
  - rewrite fmap_nil, app_nil_r. change (sumZ []) with 0. simpl. intros H.
    split; [done|lia].
  - rewrite fmap_cons, withinRange_app, Forall_cons, sumZ_cons.
    intros (Hps & [Hp Hl] & Hs). pose proof (sumZ_nonneg _ Hl) as Hnn.
    unfold addLines. cbn [fold_left]. fold (addLines lines).
    destruct (addLine_withinRange (articleNumber p) (quantity p) ps)
      as [[H1 H2] H3].
    { rewrite withinRange_app, Forall_singleton. change (sumZ [quantity p])
        with (quantity p + 0). split_and!; [done|done|lia]. }
    destruct (IH (addLine (articleNumber p) (quantity p) ps)) as [H4 H5].
    { rewrite withinRange_app. split_and!; [done|done|lia]. }
    split; [exact H4|]. etrans; [exact H5|]. rewrite H3. lia.
Qed.

Lemma sumZ_dropLine a ps :
  sumZ (quantity <$> dropLine a ps) =
  sumZ (quantity <$> ps) - sumZ (quantity <$> List.filter (isLineOf a) ps).
Proof.
  unfold dropLine. induction ps as [|pos ps IH]; [done|].
  cbn [List.filter]. unfold isLineOf at 1.
  destruct (String.eqb (articleNumber pos) a); cbn [negb];
    rewrite ?fmap_cons, ?sumZ_cons, ?IH; lia.
Qed.

Lemma filter_withinRange (P : CartPosition → bool) ps :
  Forall (λ q, 0 ≤ q) (quantity <$> ps) →
  Forall (λ q, 0 ≤ q) (quantity <$> List.filter P ps) ∧
  sumZ (quantity <$> List.filter P ps) ≤ sumZ (quantity <$> ps).
Proof.
  induction ps as [|pos ps IH]; [done|].
  rewrite fmap_cons, Forall_cons, sumZ_cons. intros [Hpos Hps].
  destruct (IH Hps) as [IH1 IH2]. cbn [List.filter].
  destruct (P pos); rewrite ?fmap_cons, ?sumZ_cons, ?Forall_cons;
    split_and?; try done; lia.
Qed.

Lemma dropLine_withinRange a ps :
  withinRange (quantity <$> ps) → withinRange (quantity <$> dropLine a ps).
Proof.
  intros [Hps Hs].
  destruct (filter_withinRange
              (λ pos, negb (String.eqb (articleNumber pos) a)) ps Hps).
  split; [done|]. unfold dropLine. lia.
Qed.

Lemma sumZ_setLine a q ps :
  NoDup (articleNumber <$> ps) →
  sumZ (quantity <$> setLine a q ps) =
  sumZ (quantity <$> ps) - sumZ (quantity <$> List.filter (isLineOf a) ps) + q.
Proof.
  unfold setLine. induction ps as [|pos ps IH]; intros Hnd.
  - rewrite upsert_nil. unfold sumZ. simpl. lia.
  - rewrite fmap_cons in Hnd. apply NoDup_cons in Hnd as [Hnot Hnd].
    rewrite upsert_cons. cbn [List.filter].
    destruct (isLineOf a pos) eqn:E.
    + apply isLineOf_true in E. rewrite E in Hnot.
      rewrite (filter_isLineOf_absent _ _ Hnot).
      rewrite !fmap_cons, !sumZ_cons. unfold setQty, sumZ. simpl. lia.
    + rewrite !fmap_cons, !sumZ_cons, IH by done. lia.
Qed.

Lemma setLine_nonneg a q ps :
  0 ≤ q → Forall (λ z, 0 ≤ z) (quantity <$> ps) →
  Forall (λ z, 0 ≤ z) (quantity <$> setLine a q ps).
Proof.
  intros Hq. unfold setLine. induction ps as [|pos ps IH].
  - intros _. rewrite upsert_nil. simpl. by constructor.
  - rewrite fmap_cons, Forall_cons. intros [Hpos Hps]. rewrite upsert_cons.
    destruct (isLineOf a pos); rewrite fmap_cons, Forall_cons; auto.
Qed.

Lemma addMultipleToCart_cartOf u lines σ :
  cartOf (addMultipleToCart u lines σ).2 u =
  {| positions := addLines lines (positions (cartOf σ u)) |}.
Proof.
  destruct lines as [|p lines].
  - rewrite addMultipleToCart_nil. simpl.
    rewrite (cartOf_known _ u (getCartInternal u σ).1)
      by (simpl; apply lookup_insert_eq).
    rewrite load_storageSet, <- cartOf_spec. by destruct (cartOf σ u).
  - by rewrite addMultipleToCart_modify, modify_cartOf.
Qed.

(** X4: when the quantities of the cart and the quantity added are not
    negative and sum to at most [2 ^ 53], [addToCart] raises the item count
    of the username by the quantity added; likewise [addMultipleToCart]
    raises it by the sum of the quantities of its input lines. *)
Theorem adding_raises_itemCount (σ : CartApi) (u a : string) (q : Z)
    (lines : list CartPosition) :
  (withinRange ((quantity <$> positions (cartOf σ u)) ++ [q]) →
   (getCartItemCount u (addToCart u a q σ).2).1 =
     (getCartItemCount u σ).1 + q) ∧
  (withinRange ((quantity <$> positions (cartOf σ u)) ++ (quantity <$> lines)) →
   (getCartItemCount u (addMultipleToCart u lines σ).2).1 =
     (getCartItemCount u σ).1 + sumZ (quantity <$> lines)).
Proof.
  split; intros H.
  - destruct (addLine_withinRange a q _ H) as [H1 H2].
    apply withinRange_app in H as (Hps & Hq & Hs).
    pose proof (sumZ_nonneg _ Hq).
    rewrite !itemCount_withinRange.
    + by rewrite addToCart_modify, modify_cartOf.
    + split; [done|lia].
    + by rewrite addToCart_modify, modify_cartOf.
  - destruct (addLines_withinRange lines _ H) as [H1 H2].
    apply withinRange_app in H as (Hps & Hl & Hs).
    pose proof (sumZ_nonneg _ Hl).
    rewrite !itemCount_withinRange.
    + by rewrite addMultipleToCart_cartOf.
    + split; [done|lia].
    + by rewrite addMultipleToCart_cartOf.
Qed.

Lemma adding_raises_itemCount_example :
  (getCartItemCount "u"
     (addToCart "u" "A" 3
        (addToCart "u" "B" 2 (mkCartApi ∅ ∅)).2).2).1 = 2 + 3 ∧
  (getCartItemCount "u"
     (addMultipleToCart "u" [mkCartPosition "A" 4; mkCartPosition "B" 1]
        (addToCart "u" "B" 2 (mkCartApi ∅ ∅)).2).2).1 = 2 + (4 + (1 + 0)).
Proof.
  destruct (adding_raises_itemCount
              (addToCart "u" "B" 2 (mkCartApi ∅ ∅)).2 "u" "A" 3
              [mkCartPosition "A" 4; mkCartPosition "B" 1]) as [H1 H2].
  split.
  - rewrite H1; [vm_compute; reflexivity|].
    apply (bool_decide_unpack _). vm_compute. exact I.
  - rewrite H2; [vm_compute; reflexivity|].
    apply (bool_decide_unpack _). vm_compute. exact I.
Defined.

(** X5: after [removeFromCart u a] the cart of [u] has no line for [a] and
    the lines of every other article are as they were; when the quantities
    of the cart are not negative and sum to at most [2 ^ 53], the item
    count has dropped by the quantity the cart held of [a]. *)
Theorem removeFromCart_effect (σ : CartApi) (u a : string) :
  linesFor a (cartOf (removeFromCart u a σ).2 u) = [] ∧
  (∀ b, b ≠ a →
        linesFor b (cartOf (removeFromCart u a σ).2 u) = linesFor b (cartOf σ u)) ∧
  (withinRange (quantity <$> positions (cartOf σ u)) →
   (getCartItemCount u (removeFromCart u a σ).2).1 =
     (getCartItemCount u σ).1 - quantityOf a (cartOf σ u)).
Proof.
  rewrite removeFromCart_modify, modify_cartOf.
  unfold linesFor, quantityOf, linesFor. simpl. split_and!.
  - apply dropLine_absent.
  - intros b Hb. unfold dropLine.
    induction (positions (cartOf σ u)) as [|pos ps IH]; [done|]. simpl.
    destruct (String.eqb (articleNumber pos) a) eqn:E; simpl.
    + apply String.eqb_eq in E.
      assert (isLineOf b pos = false) as ->; [|done].
      apply isLineOf_false. congruence.
    + by rewrite IH.
  - intros H. rewrite !itemCount_withinRange.
    + rewrite modify_cartOf. apply sumZ_dropLine.
    + done.
    + rewrite modify_cartOf. by apply dropLine_withinRange.
Qed.

Lemma removeFromCart_effect_example :
  (getCartItemCount "u"
     (removeFromCart "u" "A"
        (addMultipleToCart "u" [mkCartPosition "A" 2; mkCartPosition "B" 1]
           (mkCartApi ∅ ∅)).2).2).1 = 1.
Proof.
  destruct (removeFromCart_effect
              (addMultipleToCart "u" [mkCartPosition "A" 2; mkCartPosition "B" 1]
                 (mkCartApi ∅ ∅)).2 "u" "A") as (_ & _ & H).
  rewrite H; [vm_compute; reflexivity|].
  apply (bool_decide_unpack _). vm_compute. exact I.
Defined.

(** X6: on a cart with at most one line per article whose quantities are
    not negative and sum to at most [2 ^ 53], [updateCartPosition u a q]
    with a quantity [q] that is not negative and keeps the sum at most
    [2 ^ 53] changes the item count by [q] minus the quantity the cart held
    of [a]. *)
Theorem updateCartPosition_itemCount (σ : CartApi) (u a : string) (q : Z) :
  uniqueLines (cartOf σ u) →
  withinRange (quantity <$> positions (cartOf σ u)) →
  0 ≤ q →
  sumZ (quantity <$> positions (cartOf σ u)) - quantityOf a (cartOf σ u) + q
    ≤ 2 ^ 53 →
  (getCartItemCount u (updateCartPosition u a q σ).2).1 =
  (getCartItemCount u σ).1 - quantityOf a (cartOf σ u) + q.
Proof.
  intros Hnd Hin Hq Hs.
  rewrite !itemCount_withinRange.
  - rewrite updateCartPosition_modify, modify_cartOf. simpl.
    by apply sumZ_setLine.
  - done.
  - rewrite updateCartPosition_modify, modify_cartOf. simpl. split.
    + apply setLine_nonneg; [done|]. by destruct Hin.
    + by rewrite sumZ_setLine.
Qed.

Lemma updateCartPosition_itemCount_example :
  (getCartItemCount "u"
     (updateCartPosition "u" "A" 5
        (addMultipleToCart "u" [mkCartPosition "A" 2; mkCartPosition "B" 1]
           (mkCartApi ∅ ∅)).2).2).1 = 6.
Proof.
  rewrite updateCartPosition_itemCount.
  - vm_compute. reflexivity.
  - apply (bool_decide_unpack _). vm_compute. exact I.
  - apply (bool_decide_unpack _). vm_compute. exact I.
  - lia.
  - vm_compute. discriminate.
Defined.

(** ** Calls on the same article compose *)

Lemma upsert_ext f g new a ps :
  (∀ pos, f pos = g pos) → upsert f new a ps = upsert g new a ps.
Proof.
  intros Hfg. induction ps as [|pos ps IH]; [done|].
  rewrite !upsert_cons, Hfg, IH. done.
Qed.

Lemma upsert_upsert f1 f2 new1 new2 a ps :
  (∀ pos, articleNumber (f1 pos) = articleNumber pos) →
  articleNumber new1 = a →
  upsert f2 new2 a (upsert f1 new1 a ps) = upsert (f2 ∘ f1) (f2 new1) a ps.
Proof.
  intros Hf1 Hnew. induction ps as [|pos ps IH].
  - rewrite !upsert_nil, upsert_cons.
    by rewrite (proj2 (isLineOf_true a new1) Hnew).
  - rewrite !upsert_cons. destruct (isLineOf a pos) eqn:E.
    + rewrite upsert_cons.
      assert (isLineOf a (f1 pos) = true) as ->; [|done].
      apply isLineOf_true. rewrite Hf1. by apply isLineOf_true.
    + by rewrite upsert_cons, E, IH.
Qed.

Lemma dropLine_upsert f new a ps :
  (∀ pos, articleNumber (f pos) = articleNumber pos) →
  articleNumber new = a →
  dropLine a (upsert f new a ps) = dropLine a ps.
Proof.
  intros Hf Hnew. induction ps as [|pos ps IH].
  - rewrite upsert_nil. unfold dropLine. simpl.
    by rewrite Hnew, String.eqb_refl.
  - rewrite upsert_cons. unfold isLineOf at 1.
    destruct (String.eqb (articleNumber pos) a) eqn:E.
    + unfold dropLine. simpl. by rewrite Hf, E.
    + unfold dropLine in *. simpl. by rewrite E, IH.
Qed.

Lemma modify_ext u g g' σ :
  (∀ ps, g ps = g' ps) → modify u g σ = modify u g' σ.
Proof.
  intros Hg. unfold modify. destruct (getCartInternal u σ). by rewrite Hg.
Qed.

Lemma upsert_ext_Forall f g new a ps :
  Forall (λ pos, f pos = g pos) ps → upsert f new a ps = upsert g new a ps.
Proof.
  induction 1 as [|pos ps Hpos Hps IH]; [done|].
  by rewrite !upsert_cons, Hpos, IH.
Qed.

Lemma modify_ext_cart u g g' σ :
  g (positions (cartOf σ u)) = g' (positions (cartOf σ u)) →
  modify u g σ = modify u g' σ.
Proof.
  rewrite cartOf_spec. unfold modify. destruct (getCartInternal u σ).
  simpl. by intros ->.
Qed.

Lemma addLine_addLine a q1 q2 ps :
  withinRange ((quantity <$> ps) ++ [q1; q2]) →
  addLine a q2 (addLine a q1 ps) = addLine a (q1 + q2) ps.
Proof.
  rewrite withinRange_app, !Forall_cons.
  change (sumZ [q1; q2]) with (q1 + (q2 + 0)).
  intros (Hps & (Hq1 & Hq2 & _) & Hs). pose proof (sumZ_nonneg _ Hps) as Hnn.
  unfold addLine. rewrite upsert_upsert by done.
  change (addQty q2 {| articleNumber := a; quantity := q1 |})
    with {| articleNumber := a; quantity := jsAdd q1 q2 |}.
  rewrite (jsAdd_exact q1 q2) by (unfold exactRange; lia).
  apply upsert_ext_Forall, Forall_forall. intros pos Hin.
  assert (0 ≤ quantity pos ≤ sumZ (quantity <$> ps)) as Hpos.
  { split.
    - rewrite Forall_forall in Hps. apply Hps, list_elem_of_fmap. eauto.
    - apply sumZ_elem_le; [done|]. apply list_elem_of_fmap. eauto. }
  unfold compose, addQty. cbn [articleNumber quantity].
  rewrite (jsAdd_exact (quantity pos) q1) by (unfold exactRange; lia).
  rewrite !jsAdd_exact by (unfold exactRange; lia).
  f_equal. lia.
Qed.

(** X7: when the quantities of the cart and the two quantities added are
    not negative and sum to at most [2 ^ 53], two [addToCart] calls for
    the same article are one call with the sum of the quantities; of two
    [updateCartPosition] calls for the same article the last one counts;
    an [updateCartPosition] overrides an earlier [addToCart].  Each pair of
    calls returns the same cart and leaves the same state as the single
    call. *)
Theorem same_article_calls_compose (σ : CartApi) (u a : string) (q1 q2 : Z) :
  (withinRange ((quantity <$> positions (cartOf σ u)) ++ [q1; q2]) →
   addToCart u a q2 (addToCart u a q1 σ).2 = addToCart u a (q1 + q2) σ) ∧
  updateCartPosition u a q2 (updateCartPosition u a q1 σ).2
    = updateCartPosition u a q2 σ ∧
  updateCartPosition u a q2 (addToCart u a q1 σ).2
    = updateCartPosition u a q2 σ.
Proof.
  rewrite !addToCart_modify, !updateCartPosition_modify, !modify_modify.
  split_and!.
  - intros H. apply modify_ext_cart. unfold compose.
    by apply addLine_addLine.
  - apply modify_ext; intros ps; unfold compose, addLine, setLine.
    rewrite upsert_upsert by done.
    unfold setQty at 3. simpl. by apply upsert_ext.
  - apply modify_ext; intros ps; unfold compose, addLine, setLine.
    rewrite upsert_upsert by done.
    unfold setQty at 2. simpl. by apply upsert_ext.
Qed.

Lemma same_article_calls_compose_example :
  addToCart "u" "A" 3 (addToCart "u" "A" 2 (mkCartApi ∅ ∅)).2
  = addToCart "u" "A" (2 + 3) (mkCartApi ∅ ∅).
Proof.
  destruct (same_article_calls_compose (mkCartApi ∅ ∅) "u" "A" 2 3)
    as (H & _ & _).
  apply H. apply (bool_decide_unpack _). vm_compute. exact I.
Defined.

(** X8: [removeFromCart] is idempotent, and it undoes an [addToCart] or an
    [updateCartPosition] for the same article made just before: each pair
    of calls returns the same cart and leaves the same state as the
    removal alone. *)
Theorem removeFromCart_absorbs (σ : CartApi) (u a : string) (q : Z) :
  removeFromCart u a (removeFromCart u a σ).2 = removeFromCart u a σ ∧
  removeFromCart u a (addToCart u a q σ).2 = removeFromCart u a σ ∧
  removeFromCart u a (updateCartPosition u a q σ).2 = removeFromCart u a σ.
Proof.
  rewrite addToCart_modify, updateCartPosition_modify, !removeFromCart_modify,
    !modify_modify.
  split_and!; apply modify_ext; intros ps; unfold compose.
  - apply dropLine_idempotent.
  - by apply dropLine_upsert.
  - by apply dropLine_upsert.
Qed.

Lemma dropLine_absent_id a ps :
  List.filter (isLineOf a) ps = [] → dropLine a ps = ps.
Proof.
  unfold dropLine. induction ps as [|pos ps IH]; [done|]. simpl.
  unfold isLineOf at 1. destruct (String.eqb (articleNumber pos) a); [done|].
  simpl. intros H. by rewrite IH.
Qed.

(** X9: [removeFromCart] for an article the cart of a known username has
    no line for is a no-op: it returns the stored cart and the state is
    the one before the call. *)
Theorem removeFromCart_absent_noop (σ : CartApi) (u a : string) (r : ref)
    (c : Cart) :
  cartStorage σ !! u = Some r →
  objects σ !! r = Some c →
  linesFor a c = [] →
  removeFromCart u a σ = (r, σ).
Proof.
  intros Hu Hr Habs. rewrite removeFromCart_modify. unfold modify.
  rewrite (getCartInternal_known _ _ _ Hu). f_equal.
  assert (Hl : load r σ = c) by (unfold load; by rewrite Hr).
  rewrite Hl, (dropLine_absent_id _ _ Habs).
  apply CartApi_eq; simpl; apply insert_id; [done|]. rewrite Hr. by destruct c.
Qed.

Lemma removeFromCart_absent_noop_example :
  removeFromCart "bob" "X" (addToCart "bob" "A" 1 (mkCartApi ∅ ∅)).2 =
  (1%positive, (addToCart "bob" "A" 1 (mkCartApi ∅ ∅)).2).
Proof.
  apply (removeFromCart_absent_noop _ "bob" "X" 1%positive
           {| positions := [mkCartPosition "A" 1] |});
    vm_compute; reflexivity.
Defined.

(** ** Order of the lines *)

(** X10: [addToCart] never reorders: when the cart has a line for the
    article the sequence of article numbers is unchanged, otherwise the
    article is appended at the end; the lines of the other articles are as
    they were. *)
Theorem addToCart_keeps_order (σ : CartApi) (u a : string) (q : Z) :
  articleNumber <$> positions (cartOf (addToCart u a q σ).2 u) =
    (if decide (a ∈ articleNumber <$> positions (cartOf σ u))
     then articleNumber <$> positions (cartOf σ u)
     else (articleNumber <$> positions (cartOf σ u)) ++ [a]) ∧
  (∀ b, b ≠ a →
        linesFor b (cartOf (addToCart u a q σ).2 u) = linesFor b (cartOf σ u)).
Proof.
  rewrite addToCart_modify, modify_cartOf. unfold linesFor, addLine. simpl.
  split.
  - by apply upsert_articles.
  - intros b Hb. by apply filter_upsert_other.
Qed.

Lemma addLines_articles lines ps :
  (articleNumber <$> ps) `prefix_of` (articleNumber <$> addLines lines ps) ∧
  (∀ b, b ∈ articleNumber <$> addLines lines ps ↔
        b ∈ articleNumber <$> ps ∨ b ∈ articleNumber <$> lines).
Proof.
  revert ps. induction lines as [|p lines IH]; intros ps.
  - split; [done|]. intros b. rewrite fmap_nil, elem_of_nil. tauto.
  - unfold addLines. cbn [fold_left]. fold (addLines lines).
    destruct (IH (addLine (articleNumber p) (quantity p) ps)) as [Hpre Hmem].
    assert (Hstep :
      articleNumber <$> addLine (articleNumber p) (quantity p) ps =
      if decide (articleNumber p ∈ articleNumber <$> ps)
      then articleNumber <$> ps
      else (articleNumber <$> ps) ++ [articleNumber p])
      by (by apply upsert_articles).
    split.
    + etrans; [|exact Hpre]. rewrite Hstep. case_decide; [done|].
      by apply prefix_app_r.
    + intros b. rewrite Hmem, Hstep, fmap_cons, elem_of_cons.
      case_decide as Hin.
      * split; [tauto|]. intros [?|[->|?]]; auto.
      * rewrite elem_of_app, list_elem_of_singleton. tauto.
Qed.

Lemma filter_addLines_other b lines ps :
  b ∉ articleNumber <$> lines →
  List.filter (isLineOf b) (addLines lines ps) = List.filter (isLineOf b) ps.
Proof.
  revert ps. induction lines as [|p lines IH]; intros ps Hb; [done|].
  rewrite fmap_cons in Hb. apply not_elem_of_cons in Hb as [Hne Hb].
  unfold addLines. cbn [fold_left]. fold (addLines lines).
  rewrite IH by done. by apply filter_upsert_other.
Qed.

(** X11: [addMultipleToCart] keeps the lines the cart had in their place
    (the old sequence of article numbers is a prefix of the new one), the
    cart then has a line for exactly the articles it had or the input
    names, and the lines of articles the input does not name are as they
    were. *)
Theorem addMultipleToCart_keeps_order (σ : CartApi) (u : string)
    (lines : list CartPosition) :
  (articleNumber <$> positions (cartOf σ u)) `prefix_of`
    (articleNumber <$> positions (cartOf (addMultipleToCart u lines σ).2 u)) ∧
  (∀ b, b ∈ articleNumber <$> positions (cartOf (addMultipleToCart u lines σ).2 u)
        ↔ b ∈ articleNumber <$> positions (cartOf σ u) ∨
          b ∈ articleNumber <$> lines) ∧
  (∀ b, b ∉ articleNumber <$> lines →
        linesFor b (cartOf (addMultipleToCart u lines σ).2 u)
        = linesFor b (cartOf σ u)).
Proof.
  rewrite addMultipleToCart_cartOf. unfold linesFor. simpl.
  destruct (addLines_articles lines (positions (cartOf σ u))) as [Hpre Hmem].
  split_and!; [done|done|]. intros b Hb. by apply filter_addLines_other.
Qed.

(** ** Identity of the cart objects *)

(** X12: for a username that has an entry, [addToCart],
    [addMultipleToCart], [removeFromCart] and [updateCartPosition] return
    the object the entry refers to and leave the map as it was: the cart
    is rewritten in place, so a reference obtained earlier sees the
    update. *)
Theorem mutators_update_in_place (σ : CartApi) (u a : string) (q : Z)
    (lines : list CartPosition) (r : ref) :
  cartStorage σ !! u = Some r →
  ((addToCart u a q σ).1 = r ∧
   cartStorage (addToCart u a q σ).2 = cartStorage σ) ∧
  ((addMultipleToCart u lines σ).1 = r ∧
   cartStorage (addMultipleToCart u lines σ).2 = cartStorage σ) ∧
  ((removeFromCart u a σ).1 = r ∧
   cartStorage (removeFromCart u a σ).2 = cartStorage σ) ∧
  ((updateCartPosition u a q σ).1 = r ∧
   cartStorage (updateCartPosition u a q σ).2 = cartStorage σ).
Proof.
  intros Hu.
  assert (Hmod : ∀ g, (modify u g σ).1 = r ∧
                      cartStorage (modify u g σ).2 = cartStorage σ).
  { intros g. unfold modify. rewrite (getCartInternal_known _ _ _ Hu). simpl.
    split; [done|]. by apply insert_id. }
  rewrite addToCart_modify, removeFromCart_modify, updateCartPosition_modify.
  split_and!; try apply Hmod; destruct lines as [|p lines];
    rewrite ?addMultipleToCart_nil, ?addMultipleToCart_modify by done;
    try apply Hmod; rewrite (getCartInternal_known _ _ _ Hu); simpl;
    [done|by apply insert_id].
Qed.

Lemma mutators_update_in_place_example :
  let σ := (addToCart "bob" "A" 1 (mkCartApi ∅ ∅)).2 in
  (removeFromCart "bob" "A" σ).1 = 1%positive ∧
  cartStorage (removeFromCart "bob" "A" σ).2 = cartStorage σ.
Proof.
  intros σ.
  destruct (mutators_update_in_place σ "bob" "A" 0 [] 1%positive)
    as (_ & _ & H & _); [|exact H].
  vm_compute. reflexivity.
Defined.

(** X13: [clearCart], and so [submitCart], does not empty the cart object
    the username had: every object that existed is unchanged, and the
    entry of the username refers to none of them. *)
Theorem clearCart_installs_new_object {Entropy : Type}
    (randomUUID : Entropy → string * Entropy)
    (σ : CartApi) (e : Entropy) (u : string) (r : ref) (c : Cart) :
  objects σ !! r = Some c →
  objects (clearCart u σ) !! r = Some c ∧
  cartStorage (clearCart u σ) !! u ≠ Some r ∧
  (submitCart Entropy randomUUID u σ e).1.2 = clearCart u σ.
Proof.
  intros Hr.
  assert (Hne : fresh (dom (objects σ)) ≠ r).
  { intros <-. apply (is_fresh (dom (objects σ))), elem_of_dom. eauto. }
  split_and!.
  - unfold clearCart. simpl. by rewrite lookup_insert_ne.
  - rewrite clearCart_lookup. simpl. congruence.
  - unfold submitCart. by destruct (randomUUID e).
Qed.

Lemma clearCart_installs_new_object_example :
  let σ := (addToCart "bob" "A" 1 (mkCartApi ∅ ∅)).2 in
  objects (clearCart "bob" σ) !! 1%positive
  = Some {| positions := [mkCartPosition "A" 1] |}.
Proof.
  intros σ.
  apply (clearCart_installs_new_object demoUUID σ 0%nat "bob" 1%positive).
  vm_compute. reflexivity.
Defined.

(** ** [escapeHtml] *)

Lemma escapeChar_cases c :
  (isMarkup c = false ∧ escapeChar c = String c "") ∨
  (isMarkup c = true ∧
   escapeChar c ∈ ["&amp;"; "&lt;"; "&gt;"; "&quot;"; "&#039;"]).
Proof.
  unfold isMarkup, escapeChar.
  destruct (Ascii.eqb c "&"%char); [right; split; [done|set_solver]|].
  destruct (Ascii.eqb c "<"%char); [right; split; [done|set_solver]|].
  destruct (Ascii.eqb c ">"%char); [right; split; [done|set_solver]|].
  destruct (Ascii.eqb c "034"%char); [right; split; [done|set_solver]|].
  destruct (Ascii.eqb c "'"%char); [right; split; [done|set_solver]|].
  by left.
Qed.

Lemma list_ascii_of_string_app s1 s2 :
  String.list_ascii_of_string (s1 +:+ s2) =
  String.list_ascii_of_string s1 ++ String.list_ascii_of_string s2.
Proof. induction s1 as [|c s1 IH]; simpl; [done|]. by rewrite IH. Qed.

Lemma length_app_string s1 s2 :
  String.length (s1 +:+ s2) = (String.length s1 + String.length s2)%nat.
Proof. induction s1 as [|c s1 IH]; simpl; [done|]. by rewrite IH. Qed.

Lemma isMarkup_false c :
  isMarkup c = false →
  c ≠ "&"%char ∧ c ≠ "<"%char ∧ c ≠ ">"%char ∧ c ≠ "034"%char ∧ c ≠ "'"%char.
Proof.
  unfold isMarkup. rewrite !orb_false_iff, !Ascii.eqb_neq. tauto.
Qed.

Lemma escapeChar_no_markup c0 c :
  c ∈ String.list_ascii_of_string (escapeChar c0) →
  c ≠ "<"%char ∧ c ≠ ">"%char ∧ c ≠ "034"%char ∧ c ≠ "'"%char.
Proof.
  destruct (escapeChar_cases c0) as [[Hm Heq]|[_ Hent]].
  - rewrite Heq. simpl. intros ->%list_elem_of_singleton.
    apply isMarkup_false in Hm. tauto.
  - set_unfold in Hent. destruct_or!; try done; rewrite Hent; simpl;
      intros Hc; set_unfold; destruct_or!; try done; subst; done.
Qed.

Lemma escapeHtml_chars text c :
  c ∈ String.list_ascii_of_string (escapeHtml text) →
  c ≠ "<"%char ∧ c ≠ ">"%char ∧ c ≠ "034"%char ∧ c ≠ "'"%char.
Proof.
  induction text as [|c0 text IH]; simpl.
  - by intros ?%elem_of_nil.
  - rewrite list_ascii_of_string_app, elem_of_app. intros [Hc|Hc]; [|auto].
    by apply (escapeChar_no_markup c0).
Qed.

(** X14: the text [escapeHtml] returns holds no less-than sign, no
    greater-than sign, no double quote and no apostrophe, whatever the
    input. *)
Theorem escapeHtml_no_markup (text : string) :
  Forall (λ c, c ≠ "<"%char ∧ c ≠ ">"%char ∧ c ≠ "034"%char ∧ c ≠ "'"%char)
         (String.list_ascii_of_string (escapeHtml text)).
Proof. apply Forall_forall. intros c. apply escapeHtml_chars. Qed.

Lemma escapeChar_app_inj c1 c2 t1 t2 :
  escapeChar c1 +:+ t1 = escapeChar c2 +:+ t2 → c1 = c2 ∧ t1 = t2.
Proof.
  unfold escapeChar.
  repeat match goal with
  | |- context [Ascii.eqb ?c ?k] =>
      let E := fresh "E" in
      destruct (Ascii.eqb c k) eqn:E;
      [apply Ascii.eqb_eq in E; subst c|apply Ascii.eqb_neq in E]
  end; simpl; intros H; try discriminate H;
    try (injection H as ? ?; subst; done);
    try (injection H; intros; subst; done).
Qed.

(** X15: [escapeHtml] is injective: two texts with the same escaped form
    are the same text. *)
Theorem escapeHtml_inj (s1 s2 : string) :
  escapeHtml s1 = escapeHtml s2 → s1 = s2.
Proof.
  revert s2. induction s1 as [|c1 s1 IH]; intros [|c2 s2]; simpl; [done|..].
  - intros H. apply (f_equal String.length) in H.
    rewrite length_app_string in H. simpl in H.
    destruct (escapeChar_cases c2) as [[_ Hc]|[_ Hc]]; [rewrite Hc in H; done|].
    set_unfold. destruct_or!; subst; rewrite Hc in H; done.
  - intros H. apply (f_equal String.length) in H.
    rewrite length_app_string in H. simpl in H.
    destruct (escapeChar_cases c1) as [[_ Hc]|[_ Hc]]; [rewrite Hc in H; done|].
    set_unfold. destruct_or!; subst; rewrite Hc in H; done.
  - intros [-> ->%IH]%escapeChar_app_inj. done.
Qed.

Lemma escapeChar_length c :
  (isMarkup c = false ∧ String.length (escapeChar c) = 1%nat) ∨
  (isMarkup c = true ∧ (4 ≤ String.length (escapeChar c))%nat).
Proof.
  destruct (escapeChar_cases c) as [[Hm ->]|[Hm Hc]]; [by left|right].
  split; [done|]. set_unfold. destruct_or!; try done; rewrite Hc; simpl; lia.
Qed.

Lemma escapeHtml_length text :
  (String.length text ≤ String.length (escapeHtml text))%nat.
Proof.
  induction text as [|c text IH]; simpl; [done|].
  rewrite length_app_string.
  destruct (escapeChar_length c) as [[_ H]|[_ H]]; lia.
Qed.

Lemma escapeHtml_inj_example :
  "Tom & Jerry <3" = "Tom & Jerry <3".
Proof. apply escapeHtml_inj. vm_compute. reflexivity. Defined.

(** X16: [escapeHtml] never shortens a text, and it returns the text
    unchanged exactly when the text holds none of the five characters it
    replaces. *)
Theorem escapeHtml_fixed_points (text : string) :
  (String.length text ≤ String.length (escapeHtml text))%nat ∧
  (escapeHtml text = text ↔
   forallb (λ c, negb (isMarkup c)) (String.list_ascii_of_string text) = true).
Proof.
  split; [apply escapeHtml_length|].
  induction text as [|c text IH]; simpl; [done|].
  pose proof (escapeHtml_length text) as Hlen.
  destruct (escapeChar_cases c) as [[Hm Hc]|[Hm Hc]]; rewrite Hm; simpl.
  - rewrite Hc. change (String c "" +:+ escapeHtml text)
      with (String c (escapeHtml text)).
    rewrite <- IH. split; [by intros [= ->]|by intros ->].
  - split; [|done]. intros H. apply (f_equal String.length) in H.
    rewrite length_app_string in H. simpl in H.
    destruct (escapeChar_length c) as [[Hm' _]|[_ H4]]; [congruence|lia].
Qed.

(** ** [searchTransgourmetCatalog] *)

Section SearchProperties.

Context {Net : Type}.
Variable fetchSearch : string → SearchRequest → Net → SearchFetchResult * Net.
Variable floatToString : float → string.

(** X17: [searchTransgourmetCatalog] returns exactly when the request is
    answered with a success status and a JSON body whose [articles] is an
    array, is falsy or is missing, and the article number of every entry
    kept can be printed.  The entries kept are those of the array that are
    truthy and have a key, all of them and in the order of the response.
    What it returns is one product per entry kept, in that order, with the
    three fields as read from the entry and the image URL synthesized from
    the printed article number. *)
Theorem searchTransgourmetCatalog_returns
    (searchTerm : string) (net net' : Net) (products : list Product) :
  searchTransgourmetCatalog fetchSearch floatToString searchTerm net
    = (SearchReturn products, net')
  ↔ ∃ response data entries,
      fetchSearch
        "https://webshop.transgourmet.ch/api/webshop/hub/search-articles/search"
        {| r_searchTerm := searchTerm; r_page := 0; r_pageSize := 3 |} net
        = (SearchFulfilled response, net') ∧
      s_ok response = true ∧
      s_json response = BodyParsed data ∧
      (getProperty "articles" data = Some (JArray entries) ∨
       entries = [] ∧
       ∀ v, getProperty "articles" data = Some v → truthy v = false) ∧
      Forall2
        (λ entry product,
           p_articleNumber product = getProperty "articleNumber" entry ∧
           p_description product = getProperty "description" entry ∧
           p_normalPrice product = getProperty "normalPrice" entry ∧
           ∃ number,
             templateString floatToString (getProperty "articleNumber" entry)
               = Some number ∧
             p_articleImageUrl product = imageUrl number)
        (List.filter isArticleEntry entries) products.
Proof.
  assert (∀ kept,
    mapM (extractItem floatToString) kept = Some products ↔
    Forall2
      (λ entry product,
         p_articleNumber product = getProperty "articleNumber" entry ∧
         p_description product = getProperty "description" entry ∧
         p_normalPrice product = getProperty "normalPrice" entry ∧
         ∃ number,
           templateString floatToString (getProperty "articleNumber" entry)
             = Some number ∧
           p_articleImageUrl product = imageUrl number)
      kept products) as Hmap.
  { intros kept. rewrite mapM_Some.
    split; intros H; eapply Forall2_impl; try exact H; clear H.
    - intros entry product. unfold extractItem.
      destruct (templateString _ _) as [number|]; [|done].
      intros [= <-]. simpl. eauto 6.
    - intros entry [pn pd pp pu]. simpl.
      intros (-> & -> & -> & number & Hs & ->).
      unfold extractItem. by rewrite Hs. }
  split.
  - unfold searchTransgourmetCatalog.
    destruct (fetchSearch _ _ net) as [[reason|response] net1]; [done|].
    destruct (s_ok response) eqn:Hok; [|done]. simpl.
    destruct (s_json response) as [reason|data] eqn:Hj; [done|].
    destruct (getProperty "articles" data) as [v|] eqn:Hart.
    + destruct (truthy v) eqn:Hv.
      * destruct v as [|b|x|str|entries|members]; try done.
        destruct (mapM _ _) as [items|] eqn:Hm; [|done].
        intros [= <- <-]. exists response, data, entries.
        split_and!; [done|done|done|by left|by apply Hmap].
      * simpl. intros [= <- <-]. exists response, data, [].
        split_and!; [done|done|done| |constructor].
        right. split; [done|]. intros v' Hv'. rewrite Hart in Hv'.
        by injection Hv' as <-.
    + simpl. intros [= <- <-]. exists response, data, [].
      split_and!; [done|done|done| |constructor].
      right. split; [done|]. intros v' Hv'. by rewrite Hart in Hv'.
  - intros (response & data & entries & Hf & Hok & Hj & Hor & HF).
    apply Hmap in HF. unfold searchTransgourmetCatalog.
    rewrite Hf, Hok, Hj. simpl.
    destruct Hor as [Ha|[-> Hfalsy]].
    + rewrite Ha. simpl. by rewrite HF.
    + simpl in HF. injection HF as <-.
      destruct (getProperty "articles" data) as [v|]; [|done].
      by rewrite (Hfalsy v eq_refl).
Qed.

(** A response with an article, a [null], an object without keys and a
    text among its entries: the article and the text are kept. *)
Lemma searchTransgourmetCatalog_example (searchTerm : string) :
  let article :=
    JObject [("articleNumber", JString "095210");
             ("description", JString "Joghurt nature");
             ("normalPrice", JNumber 2.5%float);
             ("brand", JString "Emmi")] in
  let fetchOnce (url : string) (request : SearchRequest) (net : unit) :=
    (SearchFulfilled
       {| s_ok := true; s_status := 200; s_statusText := "OK";
          s_json :=
            BodyParsed
              (JObject [("articles",
                         JArray [article; JNull; JObject []; JString "x"])]) |},
     net) in
  searchTransgourmetCatalog fetchOnce floatToString searchTerm tt =
  (SearchReturn
     [{| p_articleNumber := Some (JString "095210");
         p_description := Some (JString "Joghurt nature");
         p_normalPrice := Some (JNumber 2.5%float);
         p_articleImageUrl :=
           "https://webshop.transgourmet.ch/images/articles/120px/095210.jpg" |};
      {| p_articleNumber := None;
         p_description := None;
         p_normalPrice := None;
         p_articleImageUrl :=
           "https://webshop.transgourmet.ch/images/articles/120px/undefined.jpg" |}],
   tt).
Proof. reflexivity. Qed.

(** With [articles] an object, [filter] is not a function and the search
    throws. *)
Lemma searchTransgourmetCatalog_not_an_array (searchTerm : string) :
  let fetchOnce (url : string) (request : SearchRequest) (net : unit) :=
    (SearchFulfilled
       {| s_ok := true; s_status := 200; s_statusText := "OK";
          s_json := BodyParsed (JObject [("articles", JObject [])]) |},
     net) in
  searchTransgourmetCatalog fetchOnce floatToString searchTerm tt =
  (SearchThrow FilterIsNotAFunction, tt).
Proof. reflexivity. Qed.

End SearchProperties.

(** ** The cart tools *)

Lemma find_filter {A} (p : A → bool) (l : list A) :
  List.find p l = head (List.filter p l).
Proof.
  induction l as [|x l IH]; simpl; [done|]. by destruct (p x).
Qed.

Lemma namedLines_step σ σ' u r :
  namedLines σ →
  cartStorage σ' = <[u := r]> (cartStorage σ) →
  Forall (λ pos, articleNumber pos ≠ "") (positions (load r σ')) →
  (∀ r', r' ≠ r → load r' σ' = load r' σ) →
  namedLines σ'.
Proof.
  intros Hinv Hst Hr Hother v r' Hv. simpl.
  destruct (decide (r' = r)) as [->|Hne]; [done|].
  rewrite Hother by done. apply (Hinv v r').
  rewrite Hst in Hv. apply lookup_insert_Some in Hv as [[_ ?]|[_ ?]]; [|done].
  by subst.
Qed.

Lemma cartOf_named σ u :
  namedLines σ → Forall (λ pos, articleNumber pos ≠ "") (positions (cartOf σ u)).
Proof.
  intros Hinv. destruct (cartStorage σ !! u) as [r|] eqn:E.
  - rewrite (cartOf_known _ _ _ E). by apply (Hinv u r).
  - rewrite (cartOf_unknown _ _ E). constructor.
Qed.

Lemma Forall_articles (P : string → Prop) ps :
  Forall (λ pos, P (articleNumber pos)) ps ↔ Forall P (articleNumber <$> ps).
Proof. by rewrite Forall_fmap. Qed.

Lemma addLine_named a q ps :
  a ≠ "" →
  Forall (λ pos, articleNumber pos ≠ "") ps →
  Forall (λ pos, articleNumber pos ≠ "") (addLine a q ps).
Proof.
  intros Ha. rewrite !(Forall_articles (λ b, b ≠ "")). unfold addLine.
  rewrite upsert_articles by done. case_decide; [done|].
  intros Hps. apply Forall_app. split; [done|]. by constructor.
Qed.

Lemma addLines_named lines ps :
  Forall (λ pos, articleNumber pos ≠ "") lines →
  Forall (λ pos, articleNumber pos ≠ "") ps →
  Forall (λ pos, articleNumber pos ≠ "") (addLines lines ps).
Proof.
  revert ps. induction lines as [|p lines IH]; intros ps Hl Hps; [done|].
  apply Forall_cons in Hl as [Hp Hl].
  unfold addLines. cbn [fold_left]. fold (addLines lines).
  apply IH; [done|]. by apply addLine_named.
Qed.

Lemma modify_named u g σ :
  (∀ ps, Forall (λ pos, articleNumber pos ≠ "") ps →
         Forall (λ pos, articleNumber pos ≠ "") (g ps)) →
  namedLines σ → namedLines (modify u g σ).2.
Proof.
  intros Hg Hinv.
  apply (namedLines_step σ _ u (modify u g σ).1); [done|..].
  - apply modify_storage.
  - rewrite modify_load. simpl. apply Hg. by apply cartOf_named.
  - intros r' Hne. by apply modify_load_other.
Qed.

Section ToolProperties.

Variable trim : string → string.
Variable numberToString : Z → string.

Lemma normalizedPositions_named positions :
  Forall (λ pos, articleNumber pos ≠ "") (normalizedPositions trim positions).
Proof.
  apply Forall_forall. intros pos. unfold normalizedPositions.
  rewrite list_elem_of_In, filter_In. intros [_ Hlen].
  apply Nat.ltb_lt in Hlen. intros Heq. rewrite Heq in Hlen. simpl in Hlen. lia.
Qed.

(** X18: with an article number and a username that are not blank, the
    add-article tool calls [addToCart] once with the trimmed values and
    quantity [1] when none is given, and on a cart with at most one line
    per article, when the quantity the cart held of the article plus the
    quantity added is at most [2 ^ 53] in magnitude, its reply states the
    current quantity, which is that sum, printed as the source prints a
    number. *)
Theorem addArticleTool_reports (args : AddArticleArgs) (σ : CartApi) :
  let article := default "" (trim <$> args_articleNumber args) in
  let username := default "" (trim <$> args_username args) in
  let qty := default 1 (args_quantity args) in
  article ≠ "" → username ≠ "" → uniqueLines (cartOf σ username) →
  exactRange (quantityOf article (cartOf σ username) + qty) →
  addArticleTool trim numberToString args σ =
  ({| content :=
        ["Added " +:+ numberToString qty +:+ " of article " +:+ article
         +:+ " to cart for user " +:+ dquote +:+ username +:+ dquote
         +:+ ". Current quantity: "
         +:+ numberToString (quantityOf article (cartOf σ username) + qty)
         +:+ "."] |},
   (addToCart username article qty σ).2).
Proof.
  intros article username qty Ha Hu Hnd Hex. unfold addArticleTool.
  fold article username qty.
  rewrite (proj2 (String.eqb_neq _ _) Ha), (proj2 (String.eqb_neq _ _) Hu).
  pose proof (modify_load username (addLine article qty) σ) as Hload.
  rewrite <- addToCart_modify in Hload.
  destruct (addToCart username article qty σ) as [cart σ']. simpl in *.
  rewrite Hload. simpl.
  change (λ pos, String.eqb (articleNumber pos) article) with (isLineOf article).
  rewrite find_filter, filter_addLine_same by done. done.
Qed.

(** X19: the add-multiple tool leaves the store as it is for a blank
    username, and otherwise leaves the state that [addToCart] leaves when
    called, in order, for each input position with a non-blank article
    number, with quantity [1] where none is given; in particular it
    creates no entry when no position is valid.  It hands the store no
    line with an empty article number. *)
Theorem addMultipleTool_effect (args : AddMultipleArgs) (σ : CartApi) :
  let username := default "" (trim <$> margs_username args) in
  let normalized :=
    normalizedPositions trim (default [] (margs_positions args)) in
  (username = "" → (addMultipleTool trim numberToString args σ).2 = σ) ∧
  (username ≠ "" →
   (addMultipleTool trim numberToString args σ).2 = foldAddToCart username normalized σ) ∧
  Forall (λ pos, articleNumber pos ≠ "") normalized.
Proof.
  cbv zeta. unfold addMultipleTool.
  set (username := default "" (trim <$> margs_username args)).
  split_and!.
  - intros ->. done.
  - intros Hu. rewrite (proj2 (String.eqb_neq _ _) Hu).
    destruct (default [] (margs_positions args)) as [|p ps]; [done|].
    cbn [length Nat.eqb].
    destruct (normalizedPositions trim (p :: ps)) as [|l ls]; [done|].
    cbn [length Nat.eqb].
    rewrite foldAddToCart_cons, <- addMultipleToCart_modify by done.
    by destruct (addMultipleToCart username (l :: ls) σ).
  - apply normalizedPositions_named.
Qed.

(** X20: the two tools keep the store free of lines without an article
    number, and keep at most one line per article in every cart. *)
Theorem tools_keep_lines_named (a : AddArticleArgs) (m : AddMultipleArgs)
    (σ : CartApi) :
  namedLines σ → storeInvariant σ →
  (namedLines (addArticleTool trim numberToString a σ).2 ∧
   storeInvariant (addArticleTool trim numberToString a σ).2) ∧
  (namedLines (addMultipleTool trim numberToString m σ).2 ∧
   storeInvariant (addMultipleTool trim numberToString m σ).2).
Proof.
  intros Hn Hinv. split.
  - unfold addArticleTool.
    destruct (String.eqb (default "" (trim <$> args_articleNumber a)) "")
      eqn:Ea; [done|].
    destruct (String.eqb (default "" (trim <$> args_username a)) "")
      eqn:Eu; [done|].
    apply String.eqb_neq in Ea.
    rewrite addToCart_modify.
    destruct (modify _ _ σ) as [cart σ'] eqn:Hm. simpl.
    replace σ' with (modify (default "" (trim <$> args_username a))
                       (addLine (default "" (trim <$> args_articleNumber a))
                                (default 1 (args_quantity a))) σ).2
      by (by rewrite Hm).
    split.
    + apply modify_named; [|done]. intros ps. by apply addLine_named.
    + apply modify_invariant; [|done]. intros ps. apply addLine_NoDup.
  - unfold addMultipleTool.
    destruct (String.eqb (default "" (trim <$> margs_username m)) "");
      [done|].
    destruct (length (default [] (margs_positions m)) =? 0)%nat; [done|].
    pose proof (normalizedPositions_named (default [] (margs_positions m)))
      as Hnamed.
    destruct (normalizedPositions trim (default [] (margs_positions m)))
      as [|l ls]; [done|].
    cbn [length Nat.eqb]. rewrite addMultipleToCart_modify by done.
    destruct (modify _ _ σ) as [cart σ'] eqn:Hm. simpl.
    replace σ' with (modify (default "" (trim <$> margs_username m))
                       (addLines (l :: ls)) σ).2 by (by rewrite Hm).
    split.
    + apply modify_named; [|done]. intros ps. by apply addLines_named.
    + apply modify_invariant; [|done]. intros ps. apply addLines_NoDup.
Qed.

End ToolProperties.

Lemma addArticleTool_reports_example :
  let args := mkAddArticleArgs (Some " 095210 ") (Some "alice") None in
  let σ := (addToCart "alice" "095210" 2 (mkCartApi ∅ ∅)).2 in
  content (addArticleTool demoTrim demoNumberToString args σ).1 =
    ["Added 1 of article 095210 to cart for user " +:+ dquote +:+ "alice"
     +:+ dquote +:+ ". Current quantity: 3."] ∧
  storedLines (addArticleTool demoTrim demoNumberToString args σ).2 "alice" =
    [mkCartPosition "095210" 3].
Proof.
  intros args σ. rewrite (addArticleTool_reports demoTrim demoNumberToString args σ).
  - vm_compute. done.
  - vm_compute. discriminate.
  - vm_compute. discriminate.
  - apply (bool_decide_unpack _). vm_compute. exact I.
  - apply (bool_decide_unpack _). vm_compute. exact I.
Defined.

Lemma tools_keep_lines_named_example :
  namedLines
    (addMultipleTool demoTrim demoNumberToString
       (mkAddMultipleArgs (Some "bob")
          (Some [mkPositionArg (Some "A") None; mkPositionArg (Some "  ") (Some 4);
                 mkPositionArg None None; mkPositionArg (Some "A") (Some 2)]))
       (mkCartApi ∅ ∅)).2.
Proof.
  apply (tools_keep_lines_named demoTrim demoNumberToString
           (mkAddArticleArgs None None None)); apply map_Forall_empty.
Defined.

(** ** Quantities through the tools *)

Lemma roundToDouble_positive z : 0 < z → 0 < roundToDouble z.
Proof.
  intros Hz. unfold roundToDouble. rewrite (Z.abs_eq z) by lia.
  destruct (z <=? 2 ^ 53) eqn:E; [done|]. apply Z.leb_gt in E.
  rewrite (Z.sgn_pos z), Z.mul_1_l by done.
  set (e := Z.log2 z - 52).
  assert (53 ≤ Z.log2 z) as Hlog.
  { apply Z.log2_le_pow2; [done|]. lia. }
  assert (0 < 2 ^ e) as He by (apply Z.pow_pos_nonneg; lia).
  assert (0 < z / 2 ^ e) as Hm.
  { apply Z.div_str_pos. split; [done|].
    etrans; [|apply (Z.log2_spec z Hz)].
    apply Z.pow_le_mono_r; lia. }
  cbv zeta.
  repeat match goal with |- context [if ?b then _ else _] => destruct b end;
    nia.
Qed.

Lemma addLine_positive a q ps :
  0 < q →
  Forall (λ pos, 0 < quantity pos) ps →
  Forall (λ pos, 0 < quantity pos) (addLine a q ps).
Proof.
  intros Hq. unfold addLine. induction ps as [|pos ps IH]; intros Hps.
  - rewrite upsert_nil. by constructor.
  - apply Forall_cons in Hps as [Hpos Hps]. rewrite upsert_cons.
    destruct (isLineOf a pos).
    + constructor; [|done]. unfold addQty, jsAdd. simpl.
      apply roundToDouble_positive. lia.
    + constructor; [done|]. by apply IH.
Qed.

Lemma addLines_positive lines ps :
  Forall (λ pos, 0 < quantity pos) lines →
  Forall (λ pos, 0 < quantity pos) ps →
  Forall (λ pos, 0 < quantity pos) (addLines lines ps).
Proof.
  revert ps. induction lines as [|p lines IH]; intros ps Hl Hps; [done|].
  apply Forall_cons in Hl as [Hp Hl].
  unfold addLines. cbn [fold_left]. fold (addLines lines).
  apply IH; [done|]. by apply addLine_positive.
Qed.

Lemma modify_positive u g σ :
  (∀ ps, Forall (λ pos, 0 < quantity pos) ps →
         Forall (λ pos, 0 < quantity pos) (g ps)) →
  positiveQuantities σ → positiveQuantities (modify u g σ).2.
Proof.
  intros Hg Hinv v r' Hv. simpl.
  destruct (decide (r' = (modify u g σ).1)) as [->|Hne].
  - rewrite modify_load. simpl. apply Hg.
    destruct (cartStorage σ !! u) as [r|] eqn:E.
    + rewrite (cartOf_known _ _ _ E). by apply (Hinv u r).
    + rewrite (cartOf_unknown _ _ E). constructor.
  - rewrite modify_load_other by done. apply (Hinv v r').
    rewrite modify_storage in Hv.
    apply lookup_insert_Some in Hv as [[_ ?]|[_ ?]]; [|done]. by subst.
Qed.

Section ToolQuantities.

Variable trim : string → string.
Variable numberToString : Z → string.

Lemma normalizedPositions_positive positions :
  Forall (λ pos, quantityInSchema (arg_quantity pos)) positions →
  Forall (λ pos, 0 < quantity pos) (normalizedPositions trim positions).
Proof.
  intros Hs. apply Forall_forall. intros pos. unfold normalizedPositions.
  rewrite list_elem_of_In, filter_In, in_map_iff.
  intros [(arg & <- & Harg) _]. simpl.
  rewrite Forall_forall in Hs. specialize (Hs arg).
  rewrite list_elem_of_In in Hs. specialize (Hs Harg).
  destruct (arg_quantity arg); simpl in *; lia.
Qed.

(** X21: when the quantities given to the tools satisfy the bound of the
    input schema (positive where present), the two tools keep every
    quantity in the store positive. *)
Theorem tools_keep_quantities_positive (a : AddArticleArgs)
    (m : AddMultipleArgs) (σ : CartApi) :
  positiveQuantities σ →
  quantityInSchema (args_quantity a) →
  Forall (λ pos, quantityInSchema (arg_quantity pos))
         (default [] (margs_positions m)) →
  positiveQuantities (addArticleTool trim numberToString a σ).2 ∧
  positiveQuantities (addMultipleTool trim numberToString m σ).2.
Proof.
  intros Hinv Ha Hm. split.
  - unfold addArticleTool.
    destruct (String.eqb (default "" (trim <$> args_articleNumber a)) "");
      [done|].
    destruct (String.eqb (default "" (trim <$> args_username a)) ""); [done|].
    rewrite addToCart_modify.
    destruct (modify _ _ σ) as [cart σ'] eqn:Hmod. simpl.
    replace σ' with (modify (default "" (trim <$> args_username a))
                       (addLine (default "" (trim <$> args_articleNumber a))
                                (default 1 (args_quantity a))) σ).2
      by (by rewrite Hmod).
    apply modify_positive; [|done]. intros ps. apply addLine_positive.
    destruct (args_quantity a); simpl in *; lia.
  - unfold addMultipleTool.
    destruct (String.eqb (default "" (trim <$> margs_username m)) "");
      [done|].
    destruct (length (default [] (margs_positions m)) =? 0)%nat; [done|].
    pose proof (normalizedPositions_positive _ Hm) as Hpos.
    destruct (normalizedPositions trim (default [] (margs_positions m)))
      as [|l ls]; [done|].
    cbn [length Nat.eqb]. rewrite addMultipleToCart_modify by done.
    destruct (modify _ _ σ) as [cart σ'] eqn:Hmod. simpl.
    replace σ' with (modify (default "" (trim <$> margs_username m))
                       (addLines (l :: ls)) σ).2 by (by rewrite Hmod).
    apply modify_positive; [|done]. intros ps. by apply addLines_positive.
Qed.

End ToolQuantities.

Lemma tools_keep_quantities_positive_example :
  positiveQuantities
    (addMultipleTool demoTrim demoNumberToString
       (mkAddMultipleArgs (Some "bob")
          (Some [mkPositionArg (Some "A") None; mkPositionArg (Some "A") (Some 2)]))
       (mkCartApi ∅ ∅)).2.
Proof.
  apply (tools_keep_quantities_positive demoTrim demoNumberToString
           (mkAddArticleArgs None None None)).
  - apply map_Forall_empty.
  - exact I.
  - simpl. repeat constructor.
Defined.
